(** * The client session store of ACE Music Gen

    A shallow embedding of [web/frontend/src/stores/session-store.ts]: the
    zustand store that replicates one generation session on the client,
    hydrates it from a snapshot, opens a Server-Sent-Events subscription and
    applies the pushed deltas.

    The store is a record; [set] is a record update.  The asynchronous
    actions are split at their [await]: the part before it runs when the
    action is called and leaves a suspended continuation, the part after it
    runs when the awaited promise settles.  A world carries the store, the
    event sources created so far, the suspended continuations and the list
    of requests issued to the API client. *)

From Stdlib Require Import ZArith.
From stdpp Require Import base option list strings sets.

Open Scope string_scope.
#[local] Set Warnings "-clear-no-such-hyp".

(** ** Wire types ([types/index.ts]) *)

(** [Record<string, any>] and other payloads the store only copies. *)
#[local] Unset Elimination Schemes.
Inductive Json : Type :=
| JNull
| JBool (b : bool)
| JNum (n : Z)
| JStr (s : string)
| JArr (items : list Json)
| JObj (members : list (string * Json)).
#[local] Set Elimination Schemes.

(** A JavaScript [number].  The store copies numbers, tests them for
    truthiness and compares lyric versions with [===]; it never computes
    with them, and the counters it receives are integers. *)
Definition number : Type := Z.

Module ApiError.
Record t : Type := mk {
  code : string;
  message : string;
  details : option Json
}.
End ApiError.

Module APIResponse.
Record t (T : Type) : Type := mk {
  success : bool;
  data : option T;
  error : option ApiError.t;
  request_id : string
}.
Arguments mk {T} _ _ _ _.
Arguments success {T} _.
Arguments data {T} _.
Arguments error {T} _.
Arguments request_id {T} _.
End APIResponse.

Module SessionData.
Record t : Type := mk {
  session_id : string;
  created_at : string;
  status : string
}.
End SessionData.

Inductive Role : Type := user | assistant | system.

Module ConversationTurn.
Record t : Type := mk {
  role : Role;
  content : string;
  timestamp : string;
  metadata : option Json
}.
End ConversationTurn.

Module UserRequirement.
Record t : Type := mk {
  style : string;
  mood : string;
  duration : number;
  language : string;
  specific_requests : list string;
  theme : string;
  target_audience : string
}.
End UserRequirement.

Module LyricsVersion.
Record t : Type := mk {
  version : number;
  content : string;
  approved : bool;
  user_feedback : option string;
  created_at : string;
  pinyin_annotated : option string
}.
End LyricsVersion.

Module DebugLog.
Record t : Type := mk {
  timestamp : string;
  level : string;
  message : string;
  metadata : Json
}.
End DebugLog.

(** The snapshot returned by [getSessionState].  The fields the store reads
    through [||] are optional here: a payload may leave them out, and the
    guard is there for that. *)
Module SessionState.
Record t : Type := mk {
  session_id : string;
  current_stage : string;
  stage_description : option string;
  progress_percentage : option number;
  conversation_history : option (list ConversationTurn.t);
  user_requirement : option UserRequirement.t;
  lyrics_versions : option (list LyricsVersion.t);
  debug_logs : option (list DebugLog.t)
}.
End SessionState.

(** [Partial<SessionState>], the argument of [updateSessionState]. *)
Module PartialSessionState.
Record t : Type := mk {
  session_id : option string;
  current_stage : option string;
  stage_description : option string;
  progress_percentage : option number;
  conversation_history : option (list ConversationTurn.t);
  user_requirement : option UserRequirement.t;
  lyrics_versions : option (list LyricsVersion.t);
  debug_logs : option (list DebugLog.t)
}.
Definition empty : t := mk None None None None None None None None.
(** [{...a, ...b}]: the keys of [b] win. *)
Definition spread (a b : t) : t :=
  mk (from_option Some (session_id a) (session_id b))
     (from_option Some (current_stage a) (current_stage b))
     (from_option Some (stage_description a) (stage_description b))
     (from_option Some (progress_percentage a) (progress_percentage b))
     (from_option Some (conversation_history a) (conversation_history b))
     (from_option Some (user_requirement a) (user_requirement b))
     (from_option Some (lyrics_versions a) (lyrics_versions b))
     (from_option Some (debug_logs a) (debug_logs b)).
End PartialSessionState.

Module AudioFile.
Record t : Type := mk {
  url : string;
  filename : string;
  duration : number;
  score : number
}.
End AudioFile.

Module SessionResult.
Record t : Type := mk {
  audio_files : list AudioFile.t;
  final_lyrics : string;
  metadata : Json
}.
End SessionResult.

(** ** JavaScript operators the store relies on *)

(** [s || d] on a string that may be missing: the empty string is falsy. *)
Definition string_or (s : option string) (d : string) : string :=
  match s with
  | Some x => if decide (x = "") then d else x
  | None => d
  end.

(** [s || null] on a string that may be missing. *)
Definition string_or_null (s : option string) : option string :=
  match s with
  | Some x => if decide (x = "") then None else Some x
  | None => None
  end.

(** [n || d] on a number that may be missing: zero is falsy. *)
Definition number_or (n : option number) (d : number) : number :=
  match n with
  | Some x => if decide (x = 0%Z) then d else x
  | None => d
  end.

(** [a || d] on an array that may be missing: every array is truthy. *)
Definition array_or {A : Type} (a : option (list A)) (d : list A) : list A :=
  default d a.

(** The value of [sessionId] when [!sessionId] is false. *)
Definition truthy_string (s : option string) : option string :=
  match s with
  | Some x => if decide (x = "") then None else Some x
  | None => None
  end.

(** [Array.prototype.slice(start)] with the end left out. *)
Definition slice {A : Type} (start : Z) (l : list A) : list A :=
  let len := Z.of_nat (length l) in
  let k := if decide (start < 0)%Z then Z.max (len + start) 0
           else Z.min start len in
  drop (Z.to_nat k) l.

(** What an [await] hands back: the response, or the value thrown. *)
Inductive Thrown : Type :=
| ErrorObject (message : string)
| OtherValue.

Inductive Settled (T : Type) : Type :=
| Fulfilled (response : APIResponse.t T)
| Rejected (reason : Thrown).
Arguments Fulfilled {T} _.
Arguments Rejected {T} _.

(** [response.error?.message || fallback], the message of the [Error] the
    actions throw on an unsuccessful response. *)
Definition failure_message {T : Type} (response : APIResponse.t T)
    (fallback : string) : string :=
  string_or (ApiError.message <$> APIResponse.error response) fallback.

(** [error instanceof Error ? error.message : fallback]. *)
Definition caught_message (reason : Thrown) (fallback : string) : string :=
  match reason with
  | ErrorObject m => m
  | OtherValue => fallback
  end.

Definition MSG_START_FAILED : string := "创建会话失败".
Definition MSG_SEND_FAILED : string := "发送消息失败".
Definition MSG_REVIEW_FAILED : string := "歌词审核失败".
Definition MSG_SSE_FAILED : string := "SSE连接失败".
Definition MSG_SESSION_CREATED : string := "会话已创建，正在初始化...".

(** ** The store *)

(** An [EventSource] object is named by the order in which it was created. *)
Definition Handle : Type := nat.

Record SessionStore : Type := mkStore {
  sessionId : option string;
  isConnected : bool;
  connectionError : option string;
  currentStage : string;
  stageDescription : string;
  progressPercentage : number;
  conversationHistory : list ConversationTurn.t;
  userRequirement : option UserRequirement.t;
  lyricsVersions : list LyricsVersion.t;
  debugLogs : list DebugLog.t;
  showDebugPanel : bool;
  sessionResult : option SessionResult.t;
  isLoading : bool;
  error : option string;
  _eventSource : option Handle;
  (** the snake-case keys that [updateSessionState] spreads into the store
      object next to its own fields *)
  sessionStateKeys : PartialSessionState.t
}.

(** [set({ field: v })] for each field. *)
Definition set_sessionId (v : option string) (s : SessionStore) : SessionStore :=
  mkStore v (isConnected s) (connectionError s) (currentStage s)
    (stageDescription s) (progressPercentage s) (conversationHistory s)
    (userRequirement s) (lyricsVersions s) (debugLogs s) (showDebugPanel s)
    (sessionResult s) (isLoading s) (error s) (_eventSource s)
    (sessionStateKeys s).
Definition set_isConnected (v : bool) (s : SessionStore) : SessionStore :=
  mkStore (sessionId s) v (connectionError s) (currentStage s)
    (stageDescription s) (progressPercentage s) (conversationHistory s)
    (userRequirement s) (lyricsVersions s) (debugLogs s) (showDebugPanel s)
    (sessionResult s) (isLoading s) (error s) (_eventSource s)
    (sessionStateKeys s).
Definition set_connectionError (v : option string) (s : SessionStore) : SessionStore :=
  mkStore (sessionId s) (isConnected s) v (currentStage s)
    (stageDescription s) (progressPercentage s) (conversationHistory s)
    (userRequirement s) (lyricsVersions s) (debugLogs s) (showDebugPanel s)
    (sessionResult s) (isLoading s) (error s) (_eventSource s)
    (sessionStateKeys s).
Definition set_currentStage (v : string) (s : SessionStore) : SessionStore :=
  mkStore (sessionId s) (isConnected s) (connectionError s) v
    (stageDescription s) (progressPercentage s) (conversationHistory s)
    (userRequirement s) (lyricsVersions s) (debugLogs s) (showDebugPanel s)
    (sessionResult s) (isLoading s) (error s) (_eventSource s)
    (sessionStateKeys s).
Definition set_stageDescription (v : string) (s : SessionStore) : SessionStore :=
  mkStore (sessionId s) (isConnected s) (connectionError s) (currentStage s)
    v (progressPercentage s) (conversationHistory s)
    (userRequirement s) (lyricsVersions s) (debugLogs s) (showDebugPanel s)
    (sessionResult s) (isLoading s) (error s) (_eventSource s)
    (sessionStateKeys s).
Definition set_progressPercentage (v : number) (s : SessionStore) : SessionStore :=
  mkStore (sessionId s) (isConnected s) (connectionError s) (currentStage s)
    (stageDescription s) v (conversationHistory s)
    (userRequirement s) (lyricsVersions s) (debugLogs s) (showDebugPanel s)
    (sessionResult s) (isLoading s) (error s) (_eventSource s)
    (sessionStateKeys s).
Definition set_conversationHistory (v : list ConversationTurn.t) (s : SessionStore) : SessionStore :=
  mkStore (sessionId s) (isConnected s) (connectionError s) (currentStage s)
    (stageDescription s) (progressPercentage s) v
    (userRequirement s) (lyricsVersions s) (debugLogs s) (showDebugPanel s)
    (sessionResult s) (isLoading s) (error s) (_eventSource s)
    (sessionStateKeys s).
Definition set_userRequirement (v : option UserRequirement.t) (s : SessionStore) : SessionStore :=
  mkStore (sessionId s) (isConnected s) (connectionError s) (currentStage s)
    (stageDescription s) (progressPercentage s) (conversationHistory s)
    v (lyricsVersions s) (debugLogs s) (showDebugPanel s)
    (sessionResult s) (isLoading s) (error s) (_eventSource s)
    (sessionStateKeys s).
Definition set_lyricsVersions (v : list LyricsVersion.t) (s : SessionStore) : SessionStore :=
  mkStore (sessionId s) (isConnected s) (connectionError s) (currentStage s)
    (stageDescription s) (progressPercentage s) (conversationHistory s)
    (userRequirement s) v (debugLogs s) (showDebugPanel s)
    (sessionResult s) (isLoading s) (error s) (_eventSource s)
    (sessionStateKeys s).
Definition set_debugLogs (v : list DebugLog.t) (s : SessionStore) : SessionStore :=
  mkStore (sessionId s) (isConnected s) (connectionError s) (currentStage s)
    (stageDescription s) (progressPercentage s) (conversationHistory s)
    (userRequirement s) (lyricsVersions s) v (showDebugPanel s)
    (sessionResult s) (isLoading s) (error s) (_eventSource s)
    (sessionStateKeys s).
Definition set_showDebugPanel (v : bool) (s : SessionStore) : SessionStore :=
  mkStore (sessionId s) (isConnected s) (connectionError s) (currentStage s)
    (stageDescription s) (progressPercentage s) (conversationHistory s)
    (userRequirement s) (lyricsVersions s) (debugLogs s) v
    (sessionResult s) (isLoading s) (error s) (_eventSource s)
    (sessionStateKeys s).
Definition set_sessionResult (v : option SessionResult.t) (s : SessionStore) : SessionStore :=
  mkStore (sessionId s) (isConnected s) (connectionError s) (currentStage s)
    (stageDescription s) (progressPercentage s) (conversationHistory s)
    (userRequirement s) (lyricsVersions s) (debugLogs s) (showDebugPanel s)
    v (isLoading s) (error s) (_eventSource s)
    (sessionStateKeys s).
Definition set_isLoading (v : bool) (s : SessionStore) : SessionStore :=
  mkStore (sessionId s) (isConnected s) (connectionError s) (currentStage s)
    (stageDescription s) (progressPercentage s) (conversationHistory s)
    (userRequirement s) (lyricsVersions s) (debugLogs s) (showDebugPanel s)
    (sessionResult s) v (error s) (_eventSource s)
    (sessionStateKeys s).
Definition set_error (v : option string) (s : SessionStore) : SessionStore :=
  mkStore (sessionId s) (isConnected s) (connectionError s) (currentStage s)
    (stageDescription s) (progressPercentage s) (conversationHistory s)
    (userRequirement s) (lyricsVersions s) (debugLogs s) (showDebugPanel s)
    (sessionResult s) (isLoading s) v (_eventSource s)
    (sessionStateKeys s).
Definition set__eventSource (v : option Handle) (s : SessionStore) : SessionStore :=
  mkStore (sessionId s) (isConnected s) (connectionError s) (currentStage s)
    (stageDescription s) (progressPercentage s) (conversationHistory s)
    (userRequirement s) (lyricsVersions s) (debugLogs s) (showDebugPanel s)
    (sessionResult s) (isLoading s) (error s) v
    (sessionStateKeys s).
Definition set_sessionStateKeys (v : PartialSessionState.t) (s : SessionStore) : SessionStore :=
  mkStore (sessionId s) (isConnected s) (connectionError s) (currentStage s)
    (stageDescription s) (progressPercentage s) (conversationHistory s)
    (userRequirement s) (lyricsVersions s) (debugLogs s) (showDebugPanel s)
    (sessionResult s) (isLoading s) (error s) (_eventSource s)
    v.

(** The initial state of the store. *)
Definition initial_store : SessionStore :=
  {| sessionId := None;
     isConnected := false;
     connectionError := None;
     currentStage := "initializing";
     stageDescription := "";
     progressPercentage := 0%Z;
     conversationHistory := [];
     userRequirement := None;
     lyricsVersions := [];
     debugLogs := [];
     showDebugPanel := false;
     sessionResult := None;
     isLoading := false;
     error := None;
     _eventSource := None;
     sessionStateKeys := PartialSessionState.empty |}.

(** ** The world around the store *)

(** An event source is live from [createEventSource] until [close()]. *)
Inductive ReadyState : Type := Live | Closed.

#[global] Instance ReadyState_eq_dec : EqDecision ReadyState.
Proof. solve_decision. Defined.

(** The calls that leave the store. *)
Inductive Effect : Type :=
| RequestStartSession (config : Json)
| RequestSendMessage (sessionId content : string)
| RequestReviewLyrics (sessionId : string) (version : number)
    (approved : bool) (feedback : option string)
| RequestSessionState (sessionId : string)
| RequestSessionResult (sessionId : string)
| OpenEventSource (sessionId : string) (h : Handle)
| CloseEventSource (h : Handle).

(** An action suspended at its [await], with the locals it still needs. *)
Inductive Pending : Type :=
| AwaitStartSession
| AwaitSendMessage
| AwaitReviewLyrics (version : number) (approved : bool)
    (feedback : option string)
| AwaitSessionState (sessionId : string)
| AwaitSessionResult.

Record World : Type := mkWorld {
  store : SessionStore;
  sources : list ReadyState;
  pending : list Pending;
  trace : list Effect
}.

Definition initial_world : World := mkWorld initial_store [] [] [].

(** [set(f)] on the store of a world. *)
Definition update (f : SessionStore -> SessionStore) (w : World) : World :=
  mkWorld (f (store w)) (sources w) (pending w) (trace w).

Definition emit (e : Effect) (w : World) : World :=
  mkWorld (store w) (sources w) (pending w) (trace w ++ [e]).

Definition suspend (p : Pending) (w : World) : World :=
  mkWorld (store w) (sources w) (pending w ++ [p]) (trace w).

(** [eventSource.close()]. *)
Definition close (h : Handle) (w : World) : World :=
  emit (CloseEventSource h)
    (mkWorld (store w) (<[h := Closed]> (sources w)) (pending w) (trace w)).

(** [apiClient.createEventSource(sessionId)]: a new live source; its handle
    is the number of sources created before it. *)
Definition createEventSource (sid : string) (w : World) : Handle * World :=
  let h := length (sources w) in
  (h, emit (OpenEventSource sid h)
        (mkWorld (store w) (sources w ++ [Live]) (pending w) (trace w))).

(** ** Synchronous actions *)

(** [disconnectFromStream]. *)
Definition disconnectFromStream (w : World) : World :=
  match _eventSource (store w) with
  | Some h =>
      update (fun s => set_isConnected false (set__eventSource None s))
        (close h w)
  | None => w
  end.

(** [updateSessionState]: [{...current, ...state}].  The keys of
    [SessionState] are snake-case, so the spread adds them next to the
    store's own fields. *)
Definition updateSessionState (state : PartialSessionState.t)
    (s : SessionStore) : SessionStore :=
  set_sessionStateKeys
    (PartialSessionState.spread (sessionStateKeys s) state) s.

(** [addConversationTurn]. *)
Definition addConversationTurn (turn : ConversationTurn.t)
    (s : SessionStore) : SessionStore :=
  set_conversationHistory (conversationHistory s ++ [turn]) s.

(** [addDebugLog]: append, then keep the last 50. *)
Definition addDebugLog (log : DebugLog.t) (s : SessionStore) : SessionStore :=
  set_debugLogs (slice (-50) (debugLogs s ++ [log])) s.

(** [toggleDebugPanel]. *)
Definition toggleDebugPanel (s : SessionStore) : SessionStore :=
  set_showDebugPanel (negb (showDebugPanel s)) s.

(** [setError]. *)
Definition setError (e : option string) (s : SessionStore) : SessionStore :=
  set_error e s.

(** [clearSession]. *)
Definition clearSession (w : World) : World :=
  update (fun s =>
    set__eventSource None (set_error None (set_sessionResult None
      (set_debugLogs [] (set_lyricsVersions [] (set_userRequirement None
        (set_conversationHistory [] (set_progressPercentage 0%Z
          (set_stageDescription "" (set_currentStage "initializing"
            (set_connectionError None (set_isConnected false
              (set_sessionId None s)))))))))))))
    (disconnectFromStream w).

(** ** Asynchronous actions: the part up to the [await] *)

(** [sendMessage], up to [await apiClient.sendMessage]. *)
Definition sendMessage_call (content : string) (w : World) : World :=
  match truthy_string (sessionId (store w)) with
  | None => w
  | Some sid =>
      suspend AwaitSendMessage
        (emit (RequestSendMessage sid content)
           (update (set_isLoading true) w))
  end.

(** [reviewLyrics], up to [await apiClient.reviewLyrics]. *)
Definition reviewLyrics_call (version : number) (approved : bool)
    (feedback : option string) (w : World) : World :=
  match truthy_string (sessionId (store w)) with
  | None => w
  | Some sid =>
      suspend (AwaitReviewLyrics version approved feedback)
        (emit (RequestReviewLyrics sid version approved feedback)
           (update (set_isLoading true) w))
  end.

(** [connectToStream], up to [await apiClient.getSessionState]: an event
    source the store still holds is closed and forgotten, then the snapshot
    is requested. *)
Definition connectToStream_call (w : World) : World :=
  match truthy_string (sessionId (store w)) with
  | None => w
  | Some sid =>
      let w1 :=
        match _eventSource (store w) with
        | Some h => update (set__eventSource None) (close h w)
        | None => w
        end in
      suspend (AwaitSessionState sid) (emit (RequestSessionState sid) w1)
  end.

(** [fetchSessionResult], up to [await apiClient.getSessionResult]. *)
Definition fetchSessionResult_call (w : World) : World :=
  match truthy_string (sessionId (store w)) with
  | None => w
  | Some sid =>
      suspend AwaitSessionResult (emit (RequestSessionResult sid) w)
  end.

(** [startSession], up to [await apiClient.startSession]. *)
Definition startSession_call (config : Json) (w : World) : World :=
  suspend AwaitStartSession
    (emit (RequestStartSession config)
       (update (fun s => set_error None (set_isLoading true s)) w)).

(** ** Asynchronous actions: the part after the [await] *)

(** The [catch] of [sendMessage], [reviewLyrics] and [startSession]. *)
Definition fail_with (message : string) (s : SessionStore) : SessionStore :=
  set_isLoading false (set_error (Some message) s).

(** [sendMessage], once the request has settled. *)
Definition sendMessage_resume (r : Settled Json) (w : World) : World :=
  match r with
  | Fulfilled response =>
      if APIResponse.success response
      then update (set_isLoading false) w
      else update (fail_with (failure_message response MSG_SEND_FAILED)) w
  | Rejected reason =>
      update (fail_with (caught_message reason MSG_SEND_FAILED)) w
  end.

(** The object [reviewLyrics] puts in place of a lyrics entry:
    [{ ...lyrics, approved, user_feedback: feedback || null }]. *)
Definition reviewed (approved : bool) (feedback : option string)
    (lyrics : LyricsVersion.t) : LyricsVersion.t :=
  LyricsVersion.mk (LyricsVersion.version lyrics)
    (LyricsVersion.content lyrics) approved (string_or_null feedback)
    (LyricsVersion.created_at lyrics) (LyricsVersion.pinyin_annotated lyrics).

(** The callback [reviewLyrics] maps over [lyricsVersions]. *)
Definition review_entry (version : number) (approved : bool)
    (feedback : option string) (lyrics : LyricsVersion.t) : LyricsVersion.t :=
  if decide (LyricsVersion.version lyrics = version)
  then reviewed approved feedback lyrics
  else lyrics.

(** [reviewLyrics], once the request has settled. *)
Definition reviewLyrics_resume (version : number) (approved : bool)
    (feedback : option string) (r : Settled Json) (w : World) : World :=
  match r with
  | Fulfilled response =>
      if APIResponse.success response
      then update (fun s =>
             set_isLoading false
               (set_lyricsVersions
                  (review_entry version approved feedback
                     <$> lyricsVersions s) s)) w
      else update (fail_with (failure_message response MSG_REVIEW_FAILED)) w
  | Rejected reason =>
      update (fail_with (caught_message reason MSG_REVIEW_FAILED)) w
  end.

(** The snapshot written into the store by [connectToStream]. *)
Definition hydrate (state : SessionState.t) (s : SessionStore) : SessionStore :=
  set_debugLogs (array_or (SessionState.debug_logs state) [])
    (set_lyricsVersions (array_or (SessionState.lyrics_versions state) [])
      (set_userRequirement (SessionState.user_requirement state)
        (set_conversationHistory
           (array_or (SessionState.conversation_history state) [])
          (set_progressPercentage
             (number_or (SessionState.progress_percentage state) 0%Z)
            (set_stageDescription
               (string_or (SessionState.stage_description state) "")
              (set_currentStage (SessionState.current_stage state) s)))))).

(** [connectToStream], once the snapshot request has settled: the snapshot,
    when there is one, is written into the store; then the event source is
    created, its handlers are attached and it is stored.  A rejected request
    skips all of that and only records the connection error. *)
Definition connectToStream_resume (sid : string)
    (r : Settled SessionState.t) (w : World) : World :=
  match r with
  | Fulfilled response =>
      let w1 :=
        match APIResponse.success response, APIResponse.data response with
        | true, Some state => update (hydrate state) w
        | _, _ => w
        end in
      let '(h, w2) := createEventSource sid w1 in
      update (set__eventSource (Some h)) w2
  | Rejected _ =>
      update (set_connectionError (Some MSG_SSE_FAILED)) w
  end.

(** [fetchSessionResult], once the request has settled. *)
Definition fetchSessionResult_resume (r : Settled SessionResult.t)
    (w : World) : World :=
  match r with
  | Fulfilled response =>
      match APIResponse.success response, APIResponse.data response with
      | true, Some result => update (set_sessionResult (Some result)) w
      | _, _ => w
      end
  | Rejected _ => w
  end.

(** [startSession], once the request has settled.  On success it goes on
    into [connectToStream], which suspends in turn; nothing follows the
    second [await]. *)
Definition startSession_resume (r : Settled SessionData.t) (w : World) : World :=
  match r with
  | Fulfilled response =>
      match APIResponse.success response, APIResponse.data response with
      | true, Some d =>
          connectToStream_call
            (update (fun s =>
               set_isLoading false (set_progressPercentage 0%Z
                 (set_stageDescription MSG_SESSION_CREATED
                   (set_currentStage "initializing"
                     (set_sessionId (Some (SessionData.session_id d)) s)))))
               w)
      | _, _ =>
          update (fail_with (failure_message response MSG_START_FAILED)) w
      end
  | Rejected reason =>
      update (fail_with (caught_message reason MSG_START_FAILED)) w
  end.

(** ** The handlers attached to an event source *)

(** The payload of a [state_update] event. *)
Module StateUpdate.
Record t : Type := mk {
  stage : string;
  description : string;
  progress : number
}.
End StateUpdate.

Inductive StreamEvent : Type :=
| Ev_onopen
| Ev_onerror
| Ev_connected (data : Json)
| Ev_chat_message (data : ConversationTurn.t)
| Ev_state_update (data : StateUpdate.t)
| Ev_debug_log (data : DebugLog.t)
| Ev_error (data_error : option string)
| Ev_complete (data : Json).

(** [eventSource.onopen]. *)
Definition on_open (s : SessionStore) : SessionStore :=
  set_connectionError None (set_isConnected true s).

(** [eventSource.onerror]. *)
Definition on_error (s : SessionStore) : SessionStore :=
  set_connectionError (Some MSG_SSE_FAILED) (set_isConnected false s).

(** The [state_update] listener. *)
Definition on_state_update (data : StateUpdate.t)
    (s : SessionStore) : SessionStore :=
  set_progressPercentage (StateUpdate.progress data)
    (set_stageDescription (StateUpdate.description data)
      (set_currentStage (StateUpdate.stage data) s)).

(** The [error] listener. *)
Definition on_error_event (data_error : option string)
    (s : SessionStore) : SessionStore :=
  set_error data_error s.

(** What the handlers of an event source do with an event.  The store sets
    [eventSource.onerror] and then adds a listener for events named [error]
    on the same object, so an event of type [error] reaches both, the
    [onerror] handler first.  For [Ev_error], a server-sent [error] event
    with its data, both write to the store.  For [Ev_onerror], the error
    event of the connection, which has no data, the listener throws in
    [JSON.parse] before it writes anything, and only [onerror] takes
    effect. *)
Definition handle (e : StreamEvent) (w : World) : World :=
  match e with
  | Ev_onopen => update on_open w
  | Ev_onerror => update on_error w
  | Ev_connected _ => w
  | Ev_chat_message data => update (addConversationTurn data) w
  | Ev_state_update data => update (on_state_update data) w
  | Ev_debug_log data => update (addDebugLog data) w
  | Ev_error data_error =>
      update (on_error_event data_error) (update on_error w)
  | Ev_complete _ => fetchSessionResult_call w
  end.

(** ** One turn of the event loop *)

(** The actions of the store, and the one write the chat page makes from
    outside ([useSessionStore.setState({ sessionId })]). *)
Inductive Action : Type :=
| StartSession (config : Json)
| SendMessage (content : string)
| ReviewLyrics (version : number) (approved : bool) (feedback : option string)
| ConnectToStream
| DisconnectFromStream
| UpdateSessionState (state : PartialSessionState.t)
| AddConversationTurn (turn : ConversationTurn.t)
| AddDebugLog (log : DebugLog.t)
| ToggleDebugPanel
| SetError (e : option string)
| ClearSession
| FetchSessionResult
| SetState_sessionId (sessionId : string).

Definition call (a : Action) (w : World) : World :=
  match a with
  | StartSession config => startSession_call config w
  | SendMessage content => sendMessage_call content w
  | ReviewLyrics version approved feedback =>
      reviewLyrics_call version approved feedback w
  | ConnectToStream => connectToStream_call w
  | DisconnectFromStream => disconnectFromStream w
  | UpdateSessionState state => update (updateSessionState state) w
  | AddConversationTurn turn => update (addConversationTurn turn) w
  | AddDebugLog log => update (addDebugLog log) w
  | ToggleDebugPanel => update toggleDebugPanel w
  | SetError e => update (setError e) w
  | ClearSession => clearSession w
  | FetchSessionResult => fetchSessionResult_call w
  | SetState_sessionId sid => update (set_sessionId (Some sid)) w
  end.

(** The settlement of an awaited request, by endpoint. *)
Inductive Settlement : Type :=
| SettleStartSession (r : Settled SessionData.t)
| SettleSendMessage (r : Settled Json)
| SettleReviewLyrics (r : Settled Json)
| SettleSessionState (r : Settled SessionState.t)
| SettleSessionResult (r : Settled SessionResult.t).

(** The continuation of a suspended action, run on the settlement of the
    request it awaits. *)
Definition resume (p : Pending) (r : Settlement) (w : World) : option World :=
  match p, r with
  | AwaitStartSession, SettleStartSession r => Some (startSession_resume r w)
  | AwaitSendMessage, SettleSendMessage r => Some (sendMessage_resume r w)
  | AwaitReviewLyrics version approved feedback, SettleReviewLyrics r =>
      Some (reviewLyrics_resume version approved feedback r w)
  | AwaitSessionState sid, SettleSessionState r =>
      Some (connectToStream_resume sid r w)
  | AwaitSessionResult, SettleSessionResult r =>
      Some (fetchSessionResult_resume r w)
  | _, _ => None
  end.

Inductive Event : Type :=
| Call (a : Action)
| Settle (i : nat) (r : Settlement)
| Deliver (h : Handle) (e : StreamEvent).

(** The [i]-th suspended action leaves the list when it is resumed. *)
Definition take_pending (i : nat) (w : World) : World :=
  mkWorld (store w) (sources w) (delete i (pending w)) (trace w).

(** One turn: an action is called, an awaited request settles, or a live
    event source dispatches an event.  A closed source dispatches nothing,
    and a settlement that matches no suspended action does nothing. *)
Definition step (ev : Event) (w : World) : World :=
  match ev with
  | Call a => call a w
  | Settle i r =>
      match pending w !! i with
      | Some p => default w (resume p r (take_pending i w))
      | None => w
      end
  | Deliver h e =>
      match sources w !! h with
      | Some Live => handle e w
      | _ => w
      end
  end.

Definition run (evs : list Event) (w : World) : World :=
  foldl (fun w ev => step ev w) w evs.

(** The store after a sequence of [addDebugLog] calls. *)
Definition addDebugLogs (logs : list DebugLog.t) (s : SessionStore) : SessionStore :=
  foldl (fun s log => addDebugLog log s) s logs.

(** The event sources that are live. *)
Definition live_sources (w : World) : list Handle :=
  filter (fun h => sources w !! h = Some Live) (seq 0 (length (sources w))).

(** ** Vocabulary of the statements *)

(** The part of the store that replicates the session record. *)
Definition replica (s : SessionStore) :=
  (currentStage s, stageDescription s, progressPercentage s,
   conversationHistory s, userRequirement s, lyricsVersions s,
   debugLogs s, sessionResult s).

(** The store with its loading and error flags put back to those of [s0]. *)
Definition with_flags_of (s0 s : SessionStore) : SessionStore :=
  set_error (error s0) (set_isLoading (isLoading s0) s).

(** The turns that can write [conversationHistory]: the [chat_message]
    listener and [addConversationTurn] append one turn, the settlement of a
    snapshot request replaces the list, [clearSession] empties it. *)
Definition writes_history (ev : Event) : bool :=
  match ev with
  | Deliver _ (Ev_chat_message _) => true
  | Call (AddConversationTurn _) => true
  | Call ClearSession => true
  | Settle _ (SettleSessionState _) => true
  | _ => false
  end.

(** The turns that can open an event source. *)
Definition opens_source (ev : Event) (w : World) : option string :=
  match ev with
  | Settle i (SettleSessionState (Fulfilled _)) =>
      match pending w !! i with
      | Some (AwaitSessionState sid) => Some sid
      | _ => None
      end
  | _ => None
  end.

(** In a list of effects, every event source is opened after a snapshot
    request for the same session id. *)
Definition snapshot_precedes_subscription (t : list Effect) : Prop :=
  forall (i : nat) (sid : string) (h : Handle),
    t !! i = Some (OpenEventSource sid h) ->
    exists j : nat, j < i /\ t !! j = Some (RequestSessionState sid).

(** The invariant behind the ordering: the snapshot of every suspended
    [connectToStream] has been requested, and so far every event source was
    opened after a snapshot request for its session id. *)
Definition requests_in_order (w : World) : Prop :=
  (forall sid : string,
     AwaitSessionState sid ∈ pending w -> RequestSessionState sid ∈ trace w)
  /\ snapshot_precedes_subscription (trace w).

(** A suspended [connectToStream]. *)
Definition is_connect (p : Pending) : bool :=
  match p with
  | AwaitSessionState _ => true
  | _ => false
  end.

Fixpoint count_connects (l : list Pending) : nat :=
  match l with
  | [] => 0
  | p :: l' => (if is_connect p then 1 else 0) + count_connects l'
  end.

(** The number of [connectToStream] calls waiting for their snapshot. *)
Definition connects_in_flight (w : World) : nat :=
  count_connects (pending w).

(** The event sources once the one the store holds has been closed. *)
Definition held_closed (w : World) : list ReadyState :=
  match _eventSource (store w) with
  | Some h => <[h := Closed]> (sources w)
  | None => sources w
  end.

(** The turns that enter [connectToStream]: a call of it, and the settlement
    of [startSession], which goes on into it. *)
Definition starts_connect (ev : Event) : bool :=
  match ev with
  | Call ConnectToStream => true
  | Settle _ (SettleStartSession _) => true
  | _ => false
  end.

(** A run in which [connectToStream] is never entered while an earlier
    [connectToStream] still waits for its snapshot. *)
Fixpoint non_overlapping (evs : list Event) (w : World) : Prop :=
  match evs with
  | [] => True
  | ev :: evs' =>
      (starts_connect ev = true -> connects_in_flight w = 0)
      /\ non_overlapping evs' (step ev w)
  end.

(** Every live event source is the one the store holds. *)
Definition one_subscription (w : World) : Prop :=
  forall h : Handle,
    sources w !! h = Some Live -> _eventSource (store w) = Some h.

Definition subscription_invariant (w : World) : Prop :=
  one_subscription w
  /\ connects_in_flight w <= 1
  /\ (connects_in_flight w = 1 -> _eventSource (store w) = None).

(** ** Sample data *)

Definition ok_response {T : Type} (d : T) : APIResponse.t T :=
  APIResponse.mk true (Some d) None "req-1".

Definition lyrics_v1 : LyricsVersion.t :=
  LyricsVersion.mk 1%Z "la la" true (Some "nice") "t1" None.

Definition lyrics_v2 : LyricsVersion.t :=
  LyricsVersion.mk 2%Z "la la la" true None "t2" None.

Definition turn_hello : ConversationTurn.t :=
  ConversationTurn.mk user "upbeat pop song" "t0" None.

Definition snapshot_s1 : SessionState.t :=
  SessionState.mk "s1" "reviewing_lyrics" (Some "review") (Some 40%Z)
    (Some [turn_hello]) None (Some [lyrics_v1; lyrics_v2]) None.

(** The chat page has set the session id and called [connectToStream]; the
    snapshot request is still in flight. *)
Definition world_connecting : World :=
  run [Call (SetState_sessionId "s1"); Call ConnectToStream] initial_world.

(** The snapshot has arrived and the subscription is open. *)
Definition world_connected : World :=
  run [Settle 0 (SettleSessionState (Fulfilled (ok_response snapshot_s1)));
       Deliver 0 Ev_onopen] world_connecting.

(** [connectToStream] called twice before either snapshot request settles,
    then both requests fulfilled. *)
Definition overlapping_connects : list Event :=
  [Call (SetState_sessionId "s1");
   Call ConnectToStream;
   Call ConnectToStream;
   Settle 0 (SettleSessionState (Fulfilled (ok_response snapshot_s1)));
   Settle 0 (SettleSessionState (Fulfilled (ok_response snapshot_s1)))].

(** ** The pages that use the store *)

(** [app/page.tsx]: the configuration the home page starts a session with
    ([audio_duration: 30.0], [language], [enable_pinyin: true]). *)
Definition home_config : Json :=
  JObj [("audio_duration", JNum 30); ("language", JStr "中文");
        ("enable_pinyin", JBool true)].

(** [handleStartNewSession] of the home page. *)
Definition handleStartNewSession : Event := Call (StartSession home_config).

(** The effect of the home page: with a session id in the store it sets
    [window.location.href] to the chat page of that session. *)
Definition home_redirect (s : SessionStore) : option string :=
  match truthy_string (sessionId s) with
  | Some sid => Some ("/chat/" ++ sid)
  | None => None
  end.

(** The error box of the home page: shown when [error] is truthy, with
    that text. *)
Definition home_error_box (s : SessionStore) : option string :=
  truthy_string (error s).

(** The effect of the chat page ([app/chat/[sessionId]/page.tsx]), run with
    the session id of the route and the session id the store had when the
    page rendered.  When they differ it disconnects, writes the route's id
    into the store and sets a timer; the second list is what the timer runs
    100 ms later. *)
Definition chat_page_effect (sessionId : string)
    (currentSessionId : option string) : list Event * list Event :=
  match truthy_string (Some sessionId) with
  | Some sid =>
      if decide (Some sid = currentSessionId) then ([], [])
      else ([Call DisconnectFromStream; Call (SetState_sessionId sid)],
            [Call ConnectToStream])
  | None => ([], [])
  end.

(** The debug panel of the chat page lists [debugLogs.slice(-10)]. *)
Definition visible_debug_logs (s : SessionStore) : list DebugLog.t :=
  slice (-10) (debugLogs s).

(** [stageMap] of [getStageDisplayName]. *)
Definition stageMap : list (string * string) :=
  [("initializing", "初始化中");
   ("collecting_requirements", "收集需求");
   ("generating_lyrics", "生成歌词");
   ("reviewing_lyrics", "审核歌词");
   ("preparing_generation", "准备生成");
   ("generating_music", "生成音乐");
   ("evaluating_results", "评估结果");
   ("completed", "完成");
   ("failed", "失败")].

(** The own property of an object literal under a key. *)
Fixpoint own_property (key : string) (members : list (string * string))
    : option string :=
  match members with
  | [] => None
  | (k, v) :: rest => if decide (k = key) then Some v else own_property key rest
  end.

(** The keys an object literal inherits from [Object.prototype]; reading one
    of them gives a function (or, for [__proto__], the prototype), never a
    string. *)
Definition object_prototype_keys : list string :=
  ["constructor"; "hasOwnProperty"; "isPrototypeOf"; "propertyIsEnumerable";
   "toLocaleString"; "toString"; "valueOf"; "__proto__";
   "__defineGetter__"; "__defineSetter__"; "__lookupGetter__";
   "__lookupSetter__"].

(** What [getStageDisplayName] returns: a string, or the inherited member
    found under the key. *)
Inductive DisplayName : Type :=
| Text (s : string)
| InheritedMember (key : string).

(** [getStageDisplayName]: [stageMap[stage] || stage]. *)
Definition getStageDisplayName (stage : string) : DisplayName :=
  match own_property stage stageMap with
  | Some label => Text (string_or (Some label) stage)
  | None =>
      if decide (stage ∈ object_prototype_keys) then InheritedMember stage
      else Text stage
  end.

(** [cleanupSessionStore], exported next to the store. *)
Definition cleanupSessionStore (w : World) : World := disconnectFromStream w.

(** ** More vocabulary *)


(** The event source the store holds is live. *)
Definition held_is_live (w : World) : Prop :=
  forall h : Handle,
    _eventSource (store w) = Some h -> sources w !! h = Some Live.

(** [chat_message] events of one source, one per turn. *)
Definition chat_messages (h : Handle) (turns : list ConversationTurn.t)
    : list Event :=
  (fun turn => Deliver h (Ev_chat_message turn)) <$> turns.

(** A session start that did not succeed: a rejected request, a response
    with [success] false, or a response without data. *)
Definition start_failed (r : Settled SessionData.t) : bool :=
  match r with
  | Rejected _ => true
  | Fulfilled response =>
      match APIResponse.success response, APIResponse.data response with
      | true, Some _ => false
      | _, _ => true
      end
  end.

(** A request that did not succeed: rejected, or answered with [success]
    false. *)
Definition request_failed {T : Type} (r : Settled T) : bool :=
  match r with
  | Rejected _ => true
  | Fulfilled response => negb (APIResponse.success response)
  end.

(** The message the [catch] of an action ends up with. *)
Definition failure_text {T : Type} (r : Settled T) (fallback : string)
    : string :=
  match r with
  | Rejected reason => caught_message reason fallback
  | Fulfilled response => failure_message response fallback
  end.

(** The error box of the chat page: shown when [error || connectionError]
    is truthy, with that text. *)
Definition error_banner (s : SessionStore) : option string :=
  match truthy_string (error s) with
  | Some e => Some e
  | None => truthy_string (connectionError s)
  end.

(** More sample data. *)
Definition session_data_s1 : SessionData.t :=
  SessionData.mk "s1" "2025-01-01T00:00:00" "active".

Definition failed_response {T : Type} (m : string) : APIResponse.t T :=
  APIResponse.mk false None (Some (ApiError.mk "E" m None)) "req-2".

Definition result_s1 : SessionResult.t :=
  SessionResult.mk [AudioFile.mk "/audio/1.wav" "1.wav" 30%Z 9%Z] "la la" JNull.

Definition world_empty_id : World :=
  update (set_sessionId (Some "")) initial_world.

(** * Properties *)

(** ** Basic facts about the world operations *)

Lemma step_deliver_sources (h : Handle) (e : StreamEvent) (w : World) :
  sources (step (Deliver h e) w) = sources w.
Proof.
  simpl. destruct (sources w !! h) as [[|]|]; try reflexivity.
  destruct e; simpl; try reflexivity.
  unfold fetchSessionResult_call.
  destruct (truthy_string (sessionId (store w))); reflexivity.
Qed.

Lemma truthy_string_Some (sid : string) :
  sid <> "" -> truthy_string (Some sid) = Some sid.
Proof.
  intros Hne. simpl. destruct (decide (sid = "")); [contradiction | reflexivity].
Qed.

(** ** State updates *)

(** C1. Applying the same [state_update] payload twice leaves the replica as
    one application does: the listener overwrites stage, description and
    progress with the payload whatever they were.  The same holds for the
    event dispatched twice by a source. *)
Theorem state_update_idempotent (data : StateUpdate.t) (s : SessionStore) :
  on_state_update data (on_state_update data s) = on_state_update data s
  /\ currentStage (on_state_update data s) = StateUpdate.stage data
  /\ stageDescription (on_state_update data s) = StateUpdate.description data
  /\ progressPercentage (on_state_update data s) = StateUpdate.progress data
  /\ forall (h : Handle) (w : World),
       step (Deliver h (Ev_state_update data))
         (step (Deliver h (Ev_state_update data)) w)
       = step (Deliver h (Ev_state_update data)) w.
Proof.
  repeat split.
  intros h w.
  assert (Hsrc := step_deliver_sources h (Ev_state_update data) w).
  cbn [step] in *.
  destruct (sources w !! h) as [[|]|] eqn:Hh; try (rewrite Hh; reflexivity).
  cbn [handle] in *. cbn [update sources]. rewrite Hh. reflexivity.
Qed.

(** ** The debug log buffer *)

Lemma slice_last (A : Type) (l : list A) :
  slice (-50) l = drop (length l - 50) l.
Proof.
  unfold slice. destruct (decide (-50 < 0)%Z) as [_|Hge]; [|lia].
  f_equal. lia.
Qed.

Lemma keep_last_idem (A : Type) (l : list A) :
  slice (-50) (slice (-50) l) = slice (-50) l.
Proof.
  rewrite !slice_last, length_drop, drop_drop.
  f_equal. lia.
Qed.

Lemma keep_last_snoc (A : Type) (l : list A) (x : A) :
  slice (-50) (slice (-50) l ++ [x]) = slice (-50) (l ++ [x]).
Proof.
  rewrite !slice_last, !length_app, length_drop. cbn [length].
  rewrite !drop_app_le by (rewrite ?length_drop; lia).
  rewrite drop_drop. do 2 f_equal. lia.
Qed.

Lemma keep_last_length (A : Type) (l : list A) :
  length (slice (-50) l) <= 50.
Proof. rewrite slice_last, length_drop. lia. Qed.

Lemma addDebugLogs_snoc (logs : list DebugLog.t) (log : DebugLog.t)
    (s : SessionStore) :
  addDebugLogs (logs ++ [log]) s = addDebugLog log (addDebugLogs logs s).
Proof. unfold addDebugLogs. rewrite foldl_app. reflexivity. Qed.

Lemma addDebugLogs_keep_last (logs : list DebugLog.t) (s : SessionStore) :
  slice (-50) (debugLogs (addDebugLogs logs s))
  = slice (-50) (debugLogs s ++ logs).
Proof.
  induction logs as [|log logs IH] using rev_ind.
  - rewrite app_nil_r. reflexivity.
  - rewrite addDebugLogs_snoc. cbn [addDebugLog set_debugLogs debugLogs].
    rewrite keep_last_idem, <- keep_last_snoc, IH, keep_last_snoc.
    rewrite app_assoc. reflexivity.
Qed.

Lemma addDebugLogs_nonempty (logs : list DebugLog.t) (s : SessionStore) :
  logs <> [] ->
  debugLogs (addDebugLogs logs s) = slice (-50) (debugLogs s ++ logs).
Proof.
  destruct logs as [|log logs _] using rev_ind; [congruence | intros _].
  rewrite addDebugLogs_snoc. cbn [addDebugLog set_debugLogs debugLogs].
  rewrite <- keep_last_snoc, addDebugLogs_keep_last, keep_last_snoc.
  rewrite app_assoc. reflexivity.
Qed.

(** C3. After [addDebugLog] calls the buffer holds at most 50 entries, and
    they are the last 50 of everything appended, in the order of arrival:
    from any store once at least one log has been added (the entries the
    store held count as the oldest), and from the initial store after any
    number of calls, none included. *)
Theorem debugLogs_capped (s : SessionStore) (log : DebugLog.t)
    (logs : list DebugLog.t) :
  (length (debugLogs (addDebugLogs (log :: logs) s)) <= 50
   /\ debugLogs (addDebugLogs (log :: logs) s)
      = drop (length (debugLogs s ++ log :: logs) - 50)
          (debugLogs s ++ log :: logs))
  /\ (length (debugLogs (addDebugLogs logs initial_store)) <= 50
      /\ debugLogs (addDebugLogs logs initial_store)
         = drop (length logs - 50) logs).
Proof.
  split.
  - rewrite addDebugLogs_nonempty by discriminate.
    split; [apply keep_last_length | apply slice_last].
  - destruct logs as [|l0 logs].
    + split; [cbn; lia | reflexivity].
    + rewrite addDebugLogs_nonempty by discriminate.
      cbn [initial_store debugLogs app].
      split; [apply keep_last_length | apply slice_last].
Qed.

(** ** The guard on the session id *)

(** C9. With [sessionId] null, [sendMessage], [reviewLyrics],
    [connectToStream] and [fetchSessionResult] return at once: the store is
    unchanged, no request is issued, no event source is touched and no
    continuation is left behind. *)
Theorem null_session_is_noop (w : World) (content : string)
    (version : number) (approved : bool) (feedback : option string) :
  sessionId (store w) = None ->
  sendMessage_call content w = w
  /\ reviewLyrics_call version approved feedback w = w
  /\ connectToStream_call w = w
  /\ fetchSessionResult_call w = w.
Proof.
  intros Hnull.
  unfold sendMessage_call, reviewLyrics_call, connectToStream_call,
    fetchSessionResult_call.
  rewrite Hnull. repeat split.
Qed.

Lemma null_session_is_noop_witness :
  sessionId (store initial_world) = None
  /\ sendMessage_call "hello" initial_world = initial_world
  /\ reviewLyrics_call 1%Z true (Some "fine") initial_world = initial_world
  /\ connectToStream_call initial_world = initial_world
  /\ fetchSessionResult_call initial_world = initial_world.
Proof.
  split; [reflexivity |].
  apply (null_session_is_noop initial_world "hello" 1%Z true (Some "fine")).
  reflexivity.
Defined.

(** ** Error events *)

(** C7 fails on the code. The listener for [error] events writes the [error]
    field and nothing else, but the same event also runs the [onerror]
    handler of the event source: on the connected store an [error] event
    turns the connection flag off and records the connection error, while
    the event source is still live.  In general, an [error] event of a live
    source sets [isConnected] to false, [connectionError] to the connection
    failure text and [error] to the payload; the handle, the session id, the
    replicated state, the event sources, the requests and the suspended
    actions stay as they were. *)
Theorem error_event_marks_disconnected (h : Handle)
    (data_error : option string) (w : World) :
  let w' := step (Deliver h (Ev_error data_error)) w in
  let failed :=
    step (Deliver 0 (Ev_error (Some "generation failed"))) world_connected in
  (isConnected (store world_connected) = true
   /\ connectionError (store world_connected) = None
   /\ sources world_connected !! 0 = Some Live
   /\ isConnected (store failed) = false
   /\ connectionError (store failed) = Some MSG_SSE_FAILED
   /\ error (store failed) = Some "generation failed"
   /\ sources failed !! 0 = Some Live
   /\ _eventSource (store failed) = Some 0)
  /\ (forall s : SessionStore,
        set_error (error s) (on_error_event data_error s) = s)
  /\ store w'
     = (if decide (sources w !! h = Some Live)
        then on_error_event data_error (on_error (store w))
        else store w)
  /\ isConnected (store w')
     = (if decide (sources w !! h = Some Live) then false
        else isConnected (store w))
  /\ connectionError (store w')
     = (if decide (sources w !! h = Some Live) then Some MSG_SSE_FAILED
        else connectionError (store w))
  /\ error (store w')
     = (if decide (sources w !! h = Some Live) then data_error
        else error (store w))
  /\ _eventSource (store w') = _eventSource (store w)
  /\ sessionId (store w') = sessionId (store w)
  /\ replica (store w') = replica (store w)
  /\ sources w' = sources w
  /\ pending w' = pending w
  /\ trace w' = trace w.
Proof.
  split; [repeat split |].
  split; [intros s; destruct s; reflexivity |].
  cbn [step].
  destruct (decide (sources w !! h = Some Live)) as [Hlive|Hdead].
  - rewrite Hlive. cbn. repeat split.
  - destruct (sources w !! h) as [[|]|]; [congruence | |]; repeat split.
Qed.

(** ** Lyrics review *)

Lemma reviewLyrics_success_lyrics (version : number) (approved : bool)
    (feedback : option string) (response : APIResponse.t Json) (w : World) :
  APIResponse.success response = true ->
  lyricsVersions
    (store (reviewLyrics_resume version approved feedback
              (Fulfilled response) w))
  = review_entry version approved feedback <$> lyricsVersions (store w).
Proof. intros Hok. cbn. rewrite Hok. reflexivity. Qed.

(** C5, as the code has it. When [reviewLyrics] succeeds, every lyrics entry
    whose version is the given one gets the given [approved] flag and, as
    feedback, the given string if it is not empty and null otherwise; its
    other fields stay.  Every entry with another version is unchanged, and
    the list keeps its length and order. *)
Theorem reviewLyrics_updates_matching_version (version : number)
    (approved : bool) (feedback : option string)
    (response : APIResponse.t Json) (w : World) :
  APIResponse.success response = true ->
  let w' := reviewLyrics_resume version approved feedback
              (Fulfilled response) w in
  length (lyricsVersions (store w')) = length (lyricsVersions (store w))
  /\ (forall (i : nat) (lyrics : LyricsVersion.t),
        lyricsVersions (store w) !! i = Some lyrics ->
        LyricsVersion.version lyrics <> version ->
        lyricsVersions (store w') !! i = Some lyrics)
  /\ (forall (i : nat) (lyrics : LyricsVersion.t),
        lyricsVersions (store w) !! i = Some lyrics ->
        LyricsVersion.version lyrics = version ->
        exists lyrics',
          lyricsVersions (store w') !! i = Some lyrics'
          /\ LyricsVersion.approved lyrics' = approved
          /\ LyricsVersion.user_feedback lyrics'
             = match feedback with
               | Some text => if decide (text = "") then None else Some text
               | None => None
               end
          /\ LyricsVersion.version lyrics' = LyricsVersion.version lyrics
          /\ LyricsVersion.content lyrics' = LyricsVersion.content lyrics
          /\ LyricsVersion.created_at lyrics'
             = LyricsVersion.created_at lyrics
          /\ LyricsVersion.pinyin_annotated lyrics'
             = LyricsVersion.pinyin_annotated lyrics).
Proof.
  intros Hok w'. subst w'.
  rewrite reviewLyrics_success_lyrics by exact Hok.
  split; [apply length_fmap |]. split.
  - intros i lyrics Hi Hne. rewrite list_lookup_fmap, Hi. cbn.
    unfold review_entry.
    destruct (decide (LyricsVersion.version lyrics = version));
      [contradiction | reflexivity].
  - intros i lyrics Hi Heq.
    exists (reviewed approved feedback lyrics).
    rewrite list_lookup_fmap, Hi. cbn. unfold review_entry.
    destruct (decide (LyricsVersion.version lyrics = version));
      [| contradiction].
    repeat split.
Qed.

(** C10. When [reviewLyrics] succeeds, the feedback stored in a matching
    entry is the given string exactly when that string is not empty; it is
    null when the feedback is left out or is the empty string, and it is
    never the empty string. *)
Theorem reviewLyrics_feedback_normalized (version : number) (approved : bool)
    (feedback : option string) (response : APIResponse.t Json) (w : World)
    (i : nat) (lyrics : LyricsVersion.t) :
  APIResponse.success response = true ->
  lyricsVersions (store w) !! i = Some lyrics ->
  LyricsVersion.version lyrics = version ->
  exists lyrics',
    lyricsVersions
      (store (reviewLyrics_resume version approved feedback
                (Fulfilled response) w)) !! i = Some lyrics'
    /\ (forall text : string,
          feedback = Some text -> text <> "" ->
          LyricsVersion.user_feedback lyrics' = Some text)
    /\ (feedback = None \/ feedback = Some "" ->
        LyricsVersion.user_feedback lyrics' = None)
    /\ (forall text : string,
          LyricsVersion.user_feedback lyrics' = Some text ->
          feedback = Some text /\ text <> "").
Proof.
  intros Hok Hi Heq.
  exists (reviewed approved feedback lyrics).
  rewrite reviewLyrics_success_lyrics by exact Hok.
  rewrite list_lookup_fmap, Hi. cbn. unfold review_entry.
  destruct (decide (LyricsVersion.version lyrics = version)); [| contradiction].
  split; [reflexivity |]. cbn. unfold string_or_null.
  repeat split.
  - intros text -> Hne. destruct (decide (text = "")); [contradiction | reflexivity].
  - intros [-> | ->]; reflexivity.
  - destruct feedback as [t|]; [| discriminate].
    destruct (decide (t = "")); [discriminate | congruence].
  - destruct feedback as [t|]; [| discriminate].
    destruct (decide (t = "")); [discriminate |]. congruence.
Qed.

(** Scenario D of the specification: with versions 1 and 2 in the store, a
    successful [reviewLyrics(1, false, "too slow")] rejects version 1 and
    leaves version 2 as it was. *)
Lemma reviewLyrics_updates_matching_version_witness :
  APIResponse.success (ok_response JNull) = true
  /\ lyricsVersions
       (store (reviewLyrics_resume 1%Z false (Some "too slow")
                 (Fulfilled (ok_response JNull)) world_connected)) !! 1
     = Some lyrics_v2
  /\ exists lyrics',
       lyricsVersions
         (store (reviewLyrics_resume 1%Z false (Some "too slow")
                   (Fulfilled (ok_response JNull)) world_connected)) !! 0
       = Some lyrics'
       /\ LyricsVersion.approved lyrics' = false
       /\ LyricsVersion.user_feedback lyrics' = Some "too slow".
Proof.
  split; [reflexivity |].
  destruct (reviewLyrics_updates_matching_version 1%Z false (Some "too slow")
              (ok_response JNull) world_connected eq_refl)
    as (_ & Hother & Hsame).
  split.
  - apply Hother; [reflexivity | discriminate].
  - destruct (Hsame 0 lyrics_v1 eq_refl eq_refl)
      as (lyrics' & Hl & Ha & Hf & _).
    exists lyrics'. repeat split; assumption.
Defined.

(** C5 as stated fails on an empty feedback string: a successful
    [reviewLyrics(1, false, "")] stores null, not the given string. *)
Lemma reviewLyrics_empty_feedback_counterexample :
  let w' :=
    run [Call (ReviewLyrics 1%Z false (Some ""));
         Settle 0 (SettleReviewLyrics (Fulfilled (ok_response JNull)))]
      world_connected in
  lyricsVersions (store world_connected) !! 0 = Some lyrics_v1
  /\ LyricsVersion.version lyrics_v1 = 1%Z
  /\ LyricsVersion.user_feedback <$> lyricsVersions (store w') !! 0
     = Some None
  /\ LyricsVersion.user_feedback <$> lyricsVersions (store w') !! 0
     <> Some (Some "").
Proof.
  repeat split. vm_compute. discriminate.
Qed.

Lemma reviewLyrics_feedback_normalized_witness :
  APIResponse.success (ok_response JNull) = true
  /\ lyricsVersions (store world_connected) !! 0 = Some lyrics_v1
  /\ LyricsVersion.version lyrics_v1 = 1%Z
  /\ exists lyrics',
       lyricsVersions
         (store (reviewLyrics_resume 1%Z true (Some "")
                   (Fulfilled (ok_response JNull)) world_connected)) !! 0
       = Some lyrics'
       /\ LyricsVersion.user_feedback lyrics' = None.
Proof.
  split; [reflexivity |]. split; [reflexivity |]. split; [reflexivity |].
  destruct (reviewLyrics_feedback_normalized 1%Z true (Some "")
              (ok_response JNull) world_connected 0 lyrics_v1
              eq_refl eq_refl eq_refl)
    as (lyrics' & Hl & _ & Hnull & _).
  exists lyrics'. split; [exact Hl |]. apply Hnull. right. reflexivity.
Defined.

(** ** Dropped streams and reconnection *)

(** C2 as stated fails: when the open subscription reports an error, the
    store neither closes it nor starts a snapshot request.  The source is
    still live, and the requests issued and the suspended actions are what
    they were. *)
Lemma stream_error_no_reconnect_counterexample :
  let w' := step (Deliver 0 Ev_onerror) world_connected in
  _eventSource (store world_connected) = Some 0
  /\ sources world_connected !! 0 = Some Live
  /\ sources w' !! 0 = Some Live
  /\ sources w' !! 0 <> Some Closed
  /\ trace w' = trace world_connected
  /\ trace w' = [RequestSessionState "s1"; OpenEventSource "s1" 0]
  /\ pending w' = [].
Proof.
  repeat split. vm_compute. discriminate.
Qed.

(** C2, as the code has it. A stream error only marks the store as
    disconnected: the connection flag and connection error change, the
    handle, the replicated state and every other field stay, no event source
    changes state and nothing is requested.  The close, snapshot, subscribe
    sequence is what a later [connectToStream] does: the call closes the
    subscription the store holds, forgets it, keeps the replicated state and
    requests the snapshot; the fulfilled request then opens a new
    subscription and stores it. *)
Theorem stream_error_marks_disconnected (h h0 : Handle) (sid : string)
    (w : World) :
  sessionId (store w) = Some sid ->
  sid <> "" ->
  _eventSource (store w) = Some h0 ->
  (let w' := step (Deliver h Ev_onerror) w in
   sources w' = sources w
   /\ trace w' = trace w
   /\ pending w' = pending w
   /\ _eventSource (store w') = _eventSource (store w)
   /\ replica (store w') = replica (store w)
   /\ set_connectionError (connectionError (store w))
        (set_isConnected (isConnected (store w)) (store w')) = store w
   /\ (sources w !! h = Some Live ->
       isConnected (store w') = false
       /\ connectionError (store w') = Some MSG_SSE_FAILED))
  /\ (let w1 := connectToStream_call w in
      sources w1 = <[h0 := Closed]> (sources w)
      /\ trace w1
         = (trace w ++ [CloseEventSource h0; RequestSessionState sid])%list
      /\ pending w1 = (pending w ++ [AwaitSessionState sid])%list
      /\ _eventSource (store w1) = None
      /\ replica (store w1) = replica (store w))
  /\ (forall (response : APIResponse.t SessionState.t) (w2 : World),
        let w3 := connectToStream_resume sid (Fulfilled response) w2 in
        sources w3 = (sources w2 ++ [Live])%list
        /\ trace w3
           = (trace w2 ++ [OpenEventSource sid (length (sources w2))])%list
        /\ _eventSource (store w3) = Some (length (sources w2))).
Proof.
  intros Hsid Hne Hes. split; [| split].
  - cbn [step].
    destruct (sources w !! h) as [[|]|] eqn:Hh; cbn;
      (repeat split; try (destruct (store w); reflexivity); congruence).
  - unfold connectToStream_call.
    rewrite Hsid, (truthy_string_Some sid Hne), Hes. cbn.
    rewrite <- app_assoc. repeat split.
  - intros response w2. cbn.
    destruct (APIResponse.success response), (APIResponse.data response);
      cbn; rewrite ?length_app; repeat split.
Qed.

Lemma stream_error_marks_disconnected_witness :
  sessionId (store world_connected) = Some "s1"
  /\ "s1" <> ""
  /\ _eventSource (store world_connected) = Some 0
  /\ sources (step (Deliver 0 Ev_onerror) world_connected)
     = sources world_connected
  /\ sources (connectToStream_call world_connected) = [Closed].
Proof.
  split; [reflexivity |]. split; [discriminate |]. split; [reflexivity |].
  destruct (stream_error_marks_disconnected 0 0 "s1" world_connected
              eq_refl ltac:(discriminate) eq_refl)
    as ((Hsrc & _) & (Hclosed & _) & _).
  split; [exact Hsrc | exact Hclosed].
Defined.

(** ** Snapshot, then subscribe *)

Ltac unfold_actions :=
  unfold startSession_resume, sendMessage_resume, reviewLyrics_resume,
    connectToStream_resume, fetchSessionResult_resume, clearSession,
    startSession_call, sendMessage_call, reviewLyrics_call,
    connectToStream_call, fetchSessionResult_call, disconnectFromStream,
    createEventSource, close, emit, suspend, update, take_pending in *.

Ltac split_cases :=
  unfold_actions; repeat case_match; cbn [trace pending store sources];
  rewrite <- ?app_assoc; cbn [app].

Ltac effects_added :=
  first
    [ exists []; rewrite app_nil_r; split; [reflexivity |]; set_solver
    | eexists; split; [reflexivity |]; set_solver ].

(** What one turn adds to the requests issued: an event source is opened
    only by the fulfilled snapshot request of a suspended [connectToStream],
    and a [connectToStream] is suspended only together with its snapshot
    request. *)
Lemma step_effects (ev : Event) (w : World) :
  exists added : list Effect,
    trace (step ev w) = (trace w ++ added)%list
    /\ (forall (sid : string) (h : Handle),
          OpenEventSource sid h ∈ added ->
          added = [OpenEventSource sid h] /\ opens_source ev w = Some sid)
    /\ (forall sid : string,
          AwaitSessionState sid ∈ pending (step ev w) ->
          AwaitSessionState sid ∈ pending w
          \/ RequestSessionState sid ∈ added).
Proof.
  destruct ev as [a | i r | h e].
  - destruct a; cbn [step call opens_source]; split_cases; effects_added.
  - cbn [step opens_source].
    assert (Hdel : delete i (pending w) ⊆ pending w)
      by apply list_subseteq_delete.
    destruct (pending w !! i) as [p|] eqn:Hp.
    + destruct p, r; cbn [resume default]; split_cases; effects_added.
    + effects_added.
  - cbn [step opens_source].
    destruct (sources w !! h) as [[|]|]; [destruct e; cbn [handle] | |];
      split_cases; effects_added.
Qed.

Lemma opens_source_pending (ev : Event) (w : World) (sid : string) :
  opens_source ev w = Some sid -> AwaitSessionState sid ∈ pending w.
Proof.
  destruct ev as [a | i r | h e]; try discriminate.
  destruct r as [| | |[response|reason]|]; try discriminate.
  cbn [opens_source].
  destruct (pending w !! i) as [p|] eqn:Hp; [| discriminate].
  destruct p; try discriminate.
  intros [= ->]. apply list_elem_of_lookup. exists i. exact Hp.
Qed.

Lemma requests_in_order_step (ev : Event) (w : World) :
  requests_in_order w -> requests_in_order (step ev w).
Proof.
  intros [Hpend Hord].
  destruct (step_effects ev w) as (added & Htrace & Hopen & Hawait).
  split.
  - intros sid Hin. rewrite Htrace, elem_of_app.
    destruct (Hawait sid Hin) as [Hold | Hnew]; [left; auto | right; exact Hnew].
  - rewrite Htrace. intros i sid h Hi.
    apply lookup_app_Some in Hi as [Hi | [Hlen Hi]].
    + destruct (Hord i sid h Hi) as (j & Hlt & Hj).
      exists j. split; [exact Hlt |]. apply lookup_app_l_Some. exact Hj.
    + assert (Hin : OpenEventSource sid h ∈ added)
        by (apply list_elem_of_lookup; eauto).
      destruct (Hopen sid h Hin) as [_ Hsrc].
      apply opens_source_pending, Hpend, list_elem_of_lookup in Hsrc
        as [j Hj].
      exists j. split.
      * apply lookup_lt_Some in Hj. lia.
      * apply lookup_app_l_Some. exact Hj.
Qed.

Lemma requests_in_order_run (evs : list Event) (w : World) :
  requests_in_order w -> requests_in_order (run evs w).
Proof.
  revert w. induction evs as [|ev evs IH]; intros w Hw; [exact Hw |].
  cbn. apply IH, requests_in_order_step, Hw.
Qed.

Lemma requests_in_order_initial : requests_in_order initial_world.
Proof.
  split.
  - intros sid Hin. cbn in Hin. set_solver.
  - intros i sid h Hi. cbn in Hi. rewrite lookup_nil in Hi. discriminate.
Qed.

(** C4. A [connectToStream] that passes the guard on the session id closes
    the event source the store holds, if any, requests the snapshot and
    suspends; it opens no event source.  The subscription is opened by the
    continuation, in the turn in which that snapshot request is fulfilled,
    and in no other turn; a rejected request opens none.  So in every run
    of the store each event source is opened after a snapshot request for
    its session id. *)
Theorem connectToStream_snapshot_before_subscribe (w : World) (sid : string) :
  sessionId (store w) = Some sid ->
  sid <> "" ->
  let w1 := connectToStream_call w in
  (exists closed : list Effect,
     trace w1 = (trace w ++ closed ++ [RequestSessionState sid])%list
     /\ (closed = [] \/ exists h : Handle, closed = [CloseEventSource h]))
  /\ length (sources w1) = length (sources w)
  /\ (forall h : Handle,
        sources w1 !! h = Some Live -> sources w !! h = Some Live)
  /\ pending w1 = (pending w ++ [AwaitSessionState sid])%list
  /\ (forall (response : APIResponse.t SessionState.t) (w' : World),
        trace (connectToStream_resume sid (Fulfilled response) w')
        = (trace w' ++ [OpenEventSource sid (length (sources w'))])%list)
  /\ (forall (reason : Thrown) (w' : World),
        trace (connectToStream_resume sid (Rejected reason) w') = trace w'
        /\ sources (connectToStream_resume sid (Rejected reason) w')
           = sources w')
  /\ (forall (ev : Event) (w' : World) (sid' : string) (h' : Handle),
        OpenEventSource sid' h' ∈ trace (step ev w') ->
        OpenEventSource sid' h' ∈ trace w'
        \/ opens_source ev w' = Some sid')
  /\ (forall evs : list Event,
        snapshot_precedes_subscription (trace (run evs initial_world))).
Proof.
  intros Hsid Hne w1. subst w1.
  unfold connectToStream_call.
  rewrite Hsid, (truthy_string_Some sid Hne).
  split; [| split; [| split; [| split; [| split; [| split; [| split]]]]]].
  - destruct (_eventSource (store w)) as [h|]; cbn.
    + exists [CloseEventSource h]. rewrite <- app_assoc. eauto.
    + exists []. eauto.
  - destruct (_eventSource (store w)) as [h|]; cbn;
      [apply length_insert | reflexivity].
  - destruct (_eventSource (store w)) as [h0|]; cbn; [| tauto].
    intros h Hlive.
    destruct (decide (h0 = h)) as [->|Hneq].
    + apply list_lookup_insert_Some in Hlive.
      destruct Hlive as [(_ & Hc & _) | [Hc _]]; [discriminate | congruence].
    + rewrite list_lookup_insert_ne in Hlive by exact Hneq. exact Hlive.
  - destruct (_eventSource (store w)) as [h|]; reflexivity.
  - intros response w'. cbn.
    destruct (APIResponse.success response), (APIResponse.data response);
      reflexivity.
  - intros reason w'. split; reflexivity.
  - intros ev w' sid' h' Hin.
    destruct (step_effects ev w') as (added & Htrace & Hopen & _).
    rewrite Htrace, elem_of_app in Hin.
    destruct Hin as [Hold | Hnew]; [left; exact Hold | right].
    apply (Hopen sid' h' Hnew).
  - intros evs. apply requests_in_order_run, requests_in_order_initial.
Qed.

Lemma connectToStream_snapshot_before_subscribe_witness :
  sessionId (store world_connected) = Some "s1"
  /\ "s1" <> ""
  /\ pending (connectToStream_call world_connected) = [AwaitSessionState "s1"]
  /\ length (sources (connectToStream_call world_connected)) = 1.
Proof.
  split; [reflexivity |]. split; [discriminate |].
  destruct (connectToStream_snapshot_before_subscribe world_connected "s1"
              eq_refl ltac:(discriminate))
    as (_ & Hlen & _ & Hpend & _).
  split; [exact Hpend | exact Hlen].
Defined.

(** ** Who writes the conversation history *)

Lemma with_flags_of_same (s : SessionStore) : with_flags_of s s = s.
Proof. destruct s; reflexivity. Qed.

Lemma with_flags_of_loading (b : bool) (s : SessionStore) :
  with_flags_of s (set_isLoading b s) = s.
Proof. destruct s; reflexivity. Qed.

Lemma with_flags_of_fail (m : string) (s : SessionStore) :
  with_flags_of s (fail_with m s) = s.
Proof. destruct s; reflexivity. Qed.

(** C8 as stated fails in its last part: the snapshot loaded by
    [connectToStream] also makes [conversationHistory] grow, in a turn that
    is not a [chat_message] event. *)
Lemma snapshot_grows_history_counterexample :
  let ev :=
    Settle 0 (SettleSessionState (Fulfilled (ok_response snapshot_s1))) in
  conversationHistory (store world_connecting) = []
  /\ conversationHistory (store (step ev world_connecting)) = [turn_hello]
  /\ length (conversationHistory (store world_connecting))
     < length (conversationHistory (store (step ev world_connecting)))
  /\ forall (h : Handle) (turn : ConversationTurn.t),
       ev <> Deliver h (Ev_chat_message turn).
Proof.
  split; [reflexivity |]. split; [reflexivity |].
  split; [vm_compute; lia |]. intros h turn. discriminate.
Qed.

(** C8, as the code has it. [sendMessage] does not touch
    [conversationHistory]: neither the call nor its continuation, whatever
    the response, changes anything but the loading and error flags.  A
    [chat_message] event of a live source appends its turn.  Besides that,
    the history is written only by [addConversationTurn], by the snapshot of
    [connectToStream], which replaces it, and by [clearSession], which
    empties it. *)
Theorem sendMessage_leaves_history (content : string) (r : Settled Json)
    (h : Handle) (turn : ConversationTurn.t) (ev : Event) (w : World) :
  (conversationHistory (store (sendMessage_call content w))
   = conversationHistory (store w)
   /\ with_flags_of (store w) (store (sendMessage_call content w)) = store w)
  /\ (conversationHistory (store (sendMessage_resume r w))
      = conversationHistory (store w)
      /\ with_flags_of (store w) (store (sendMessage_resume r w)) = store w)
  /\ conversationHistory (store (step (Deliver h (Ev_chat_message turn)) w))
     = (if decide (sources w !! h = Some Live)
        then (conversationHistory (store w) ++ [turn])%list
        else conversationHistory (store w))
  /\ (conversationHistory (store (step ev w)) = conversationHistory (store w)
      \/ writes_history ev = true).
Proof.
  split; [| split; [| split]].
  - unfold sendMessage_call.
    destruct (truthy_string (sessionId (store w))); cbn.
    + split; [reflexivity | apply with_flags_of_loading].
    + split; [reflexivity | apply with_flags_of_same].
  - unfold sendMessage_resume.
    destruct r as [response|reason];
      [destruct (APIResponse.success response) |]; cbn;
      (split; [reflexivity |]);
      auto using with_flags_of_loading, with_flags_of_fail.
  - cbn [step].
    destruct (decide (sources w !! h = Some Live)) as [Hlive|Hdead].
    + rewrite Hlive. reflexivity.
    + destruct (sources w !! h) as [[|]|]; [congruence | |]; reflexivity.
  - destruct ev as [a | i s | h' e].
    + destruct a; cbn [step call writes_history]; auto;
        left; split_cases; reflexivity.
    + cbn [step writes_history].
      destruct (pending w !! i) as [p|]; [| auto].
      destruct s; auto; destruct p; cbn [resume default]; auto;
        left; split_cases; reflexivity.
    + cbn [step writes_history].
      destruct (sources w !! h') as [[|]|]; auto.
      destruct e; cbn [handle]; auto; left; split_cases; reflexivity.
Qed.

(** ** One subscription at a time *)

Lemma count_connects_app (l1 l2 : list Pending) :
  count_connects (l1 ++ l2) = count_connects l1 + count_connects l2.
Proof. induction l1 as [|p l1 IH]; cbn; [reflexivity | rewrite IH; lia]. Qed.

Lemma count_connects_delete (i : nat) (p : Pending) (l : list Pending) :
  l !! i = Some p ->
  count_connects l
  = count_connects (delete i l) + (if is_connect p then 1 else 0).
Proof.
  intros Hi.
  rewrite <- (take_drop_middle l i p Hi) at 1.
  rewrite delete_take_drop, !count_connects_app. cbn. lia.
Qed.

Ltac subscription_close :=
  first [reflexivity | assumption | lia | congruence].

Ltac subscription_case :=
  unfold connects_in_flight, held_closed; unfold_actions; cbn;
  repeat (case_match; cbn in * ); rewrite ?count_connects_app; cbn;
  first [ solve [left; repeat split; subscription_close]
        | solve [right; left; repeat split; subscription_close]
        | solve [right; right; left; repeat split; subscription_close]
        | solve [right; right; right; repeat split; subscription_close] ].

(** What one turn does to the subscription: nothing; or it closes and
    forgets the event source the store holds; or it does so and suspends a
    [connectToStream]; or it resumes a suspended [connectToStream], which
    opens a new event source and stores it. *)
Lemma step_subscription (ev : Event) (w : World) :
  let w' := step ev w in
  (_eventSource (store w') = _eventSource (store w)
   /\ sources w' = sources w
   /\ connects_in_flight w' <= connects_in_flight w)
  \/ (_eventSource (store w') = None
      /\ sources w' = held_closed w
      /\ connects_in_flight w' = connects_in_flight w)
  \/ (_eventSource (store w') = None
      /\ sources w' = held_closed w
      /\ connects_in_flight w' <= S (connects_in_flight w)
      /\ starts_connect ev = true)
  \/ (_eventSource (store w') = Some (length (sources w))
      /\ sources w' = (sources w ++ [Live])%list
      /\ S (connects_in_flight w') = connects_in_flight w).
Proof.
  destruct ev as [a | i r | h e].
  - destruct a; cbn [step call starts_connect]; subscription_case.
  - cbn [step starts_connect].
    destruct (pending w !! i) as [p|] eqn:Hp.
    + pose proof (count_connects_delete i p (pending w) Hp) as Hcount.
      destruct p, r; cbn [resume default is_connect] in *; subscription_case.
    + subscription_case.
  - cbn [step starts_connect].
    destruct (sources w !! h) as [[|]|]; [destruct e; cbn [handle] | |];
      subscription_case.
Qed.

Lemma held_closed_not_live (w : World) (h : Handle) :
  one_subscription w -> held_closed w !! h = Some Live -> False.
Proof.
  intros Hone. unfold held_closed.
  destruct (_eventSource (store w)) as [h0|] eqn:Hes; intros Hlive.
  - apply list_lookup_insert_Some in Hlive.
    destruct Hlive as [(_ & Hc & _) | [Hne Hlive]]; [discriminate |].
    apply Hone in Hlive. congruence.
  - apply Hone in Hlive. congruence.
Qed.

Lemma subscription_invariant_step (ev : Event) (w : World) :
  (starts_connect ev = true -> connects_in_flight w = 0) ->
  subscription_invariant w -> subscription_invariant (step ev w).
Proof.
  intros Hseq (Hone & Hle & Hnone).
  destruct (step_subscription ev w)
    as [(Hes & Hsrc & Hcnt) | [(Hes & Hsrc & Hcnt) | [(Hes & Hsrc & Hcnt & Hst)
       | (Hes & Hsrc & Hcnt)]]];
    unfold subscription_invariant, one_subscription; rewrite Hes, Hsrc.
  - split; [exact Hone |]. split; [lia |]. intros H1. apply Hnone. lia.
  - split; [intros h Hl; destruct (held_closed_not_live w h Hone Hl) |].
    split; [lia | reflexivity].
  - split; [intros h Hl; destruct (held_closed_not_live w h Hone Hl) |].
    specialize (Hseq Hst). split; [lia | reflexivity].
  - assert (Hes0 : _eventSource (store w) = None) by (apply Hnone; lia).
    split; [| split; [lia |]].
    + intros h Hl. apply lookup_app_Some in Hl as [Hl | [Hge Hl]].
      * apply Hone in Hl. congruence.
      * apply list_lookup_singleton_Some in Hl as [Hh _].
        f_equal. lia.
    + intros H1. lia.
Qed.

(** As long as [connectToStream] calls do not overlap, the guard does what
    it is there for: in every state of such a run each live event source is
    the one the store holds, so at most one is live. *)
Lemma one_subscription_without_overlap (evs : list Event) (w : World) :
  subscription_invariant w ->
  non_overlapping evs w ->
  subscription_invariant (run evs w)
  /\ forall h1 h2 : Handle,
       sources (run evs w) !! h1 = Some Live ->
       sources (run evs w) !! h2 = Some Live -> h1 = h2.
Proof.
  intros Hinv Hseq.
  assert (Hrun : subscription_invariant (run evs w)).
  { revert w Hinv Hseq. induction evs as [|ev evs IH]; intros w Hinv Hseq.
    - exact Hinv.
    - destruct Hseq as [Hev Hseq]. cbn.
      apply IH; [apply subscription_invariant_step; assumption | exact Hseq]. }
  split; [exact Hrun |].
  intros h1 h2 H1 H2. destruct Hrun as (Hone & _).
  apply Hone in H1. apply Hone in H2. congruence.
Qed.

Lemma subscription_invariant_initial : subscription_invariant initial_world.
Proof.
  split; [| split; [cbn; lia | reflexivity]].
  intros h Hl. cbn in Hl. rewrite lookup_nil in Hl. discriminate.
Qed.

(** The run of the chat page, with its single [connectToStream], is of
    that kind. *)
Lemma world_connected_one_subscription :
  subscription_invariant world_connected
  /\ live_sources world_connected = [0].
Proof.
  split; [| reflexivity].
  apply (one_subscription_without_overlap
           [Call (SetState_sessionId "s1"); Call ConnectToStream;
            Settle 0
              (SettleSessionState (Fulfilled (ok_response snapshot_s1)));
            Deliver 0 Ev_onopen]
           initial_world subscription_invariant_initial).
  cbn [non_overlapping starts_connect].
  split; [discriminate |]. split; [reflexivity |].
  split; [discriminate |]. split; [discriminate | exact I].
Qed.

(** C6 fails on the code. Two [connectToStream] calls that overlap, the
    second made before the snapshot request of the first has settled, both
    find no event source to close and both open one.  The store holds the
    second; the first stays live and out of reach: [disconnectFromStream]
    closes only the second, and a [chat_message] sent on the stream is
    appended once per live source.  The run is one that
    [one_subscription_without_overlap] does not cover. *)
Theorem overlapping_connects_two_live_sources :
  let w := run overlapping_connects initial_world in
  sources w = [Live; Live]
  /\ live_sources w = [0; 1]
  /\ _eventSource (store w) = Some 1
  /\ trace w = [RequestSessionState "s1"; RequestSessionState "s1";
                OpenEventSource "s1" 0; OpenEventSource "s1" 1]
  /\ live_sources (disconnectFromStream w) = [0]
  /\ _eventSource (store (disconnectFromStream w)) = None
  /\ conversationHistory
       (store (run [Deliver 0 (Ev_chat_message turn_hello);
                    Deliver 1 (Ev_chat_message turn_hello)] w))
     = (conversationHistory (store w) ++ [turn_hello; turn_hello])%list
  /\ ~ non_overlapping overlapping_connects initial_world.
Proof.
  split; [reflexivity |]. split; [reflexivity |]. split; [reflexivity |].
  split; [reflexivity |]. split; [reflexivity |]. split; [reflexivity |].
  split; [reflexivity |].
  intros Hrun. destruct Hrun as (_ & _ & Hsecond & _).
  specialize (Hsecond eq_refl). vm_compute in Hsecond. discriminate.
Qed.

(** * Further properties of the store and its pages *)

(** ** Starting a session *)

Lemma string_or_nonempty (s : option string) (d : string) :
  d <> "" -> string_or s d <> "".
Proof.
  intros Hd. destruct s as [x|]; cbn; [| exact Hd].
  destruct (decide (x = "")); assumption.
Qed.

Lemma MSG_START_FAILED_nonempty : MSG_START_FAILED <> "".
Proof. discriminate. Qed.

(** A [startSession] that fails, by a rejected request, an unsuccessful
    response or a response without data, only ends the loading state and
    records the error: the message of the response when it has a non-empty
    one, the message of the thrown [Error], else the fallback text.  The
    session id, the replicated state and the subscription stay, nothing is
    requested, and the home page does not redirect on account of it. *)
Theorem startSession_failure_keeps_store (r : Settled SessionData.t)
    (w : World) :
  start_failed r = true ->
  let w' := startSession_resume r w in
  with_flags_of (store w) (store w') = store w
  /\ isLoading (store w') = false
  /\ error (store w')
     = Some (match r with
             | Rejected reason => caught_message reason MSG_START_FAILED
             | Fulfilled response =>
                 failure_message response MSG_START_FAILED
             end)
  /\ (forall response : APIResponse.t SessionData.t,
        r = Fulfilled response -> error (store w') <> Some "")
  /\ sources w' = sources w
  /\ pending w' = pending w
  /\ trace w' = trace w
  /\ home_redirect (store w') = home_redirect (store w).
Proof.
  intros Hfail w'. subst w'.
  assert (Hstore :
    store (startSession_resume r w)
    = fail_with (match r with
                 | Rejected reason => caught_message reason MSG_START_FAILED
                 | Fulfilled response =>
                     failure_message response MSG_START_FAILED
                 end) (store w)
    /\ sources (startSession_resume r w) = sources w
    /\ pending (startSession_resume r w) = pending w
    /\ trace (startSession_resume r w) = trace w).
  { destruct r as [response|reason]; cbn in *; [| repeat split].
    destruct (APIResponse.success response), (APIResponse.data response);
      try discriminate; repeat split. }
  destruct Hstore as (Hstore & Hsrc & Hpend & Htrace).
  rewrite Hstore, Hsrc, Hpend, Htrace.
  split; [apply with_flags_of_fail |].
  split; [reflexivity |]. split; [reflexivity |].
  split; [| repeat split].
  intros response ->. cbn. intros [= Hempty].
  exact (string_or_nonempty _ _ MSG_START_FAILED_nonempty Hempty).
Qed.

Lemma startSession_failure_keeps_store_witness :
  start_failed (Fulfilled (failed_response "quota exceeded")) = true
  /\ error (store (startSession_resume
                     (Fulfilled (failed_response "quota exceeded"))
                     (startSession_call home_config initial_world)))
     = Some "quota exceeded".
Proof.
  split; [reflexivity |].
  destruct (startSession_failure_keeps_store
              (Fulfilled (failed_response "quota exceeded"))
              (startSession_call home_config initial_world) eq_refl)
    as (_ & _ & Herr & _).
  exact Herr.
Defined.

(** A [startSession] that succeeds with a non-empty session id stores the
    id, resets stage, description and progress, ends the loading state and
    goes on into [connectToStream]: the event source the store held is
    closed and forgotten and the snapshot of the new session is requested.
    It does not clear what the store replicated before: conversation,
    requirement, lyrics, debug logs and result stay until the snapshot
    arrives. *)
Theorem startSession_success_connects (response : APIResponse.t SessionData.t)
    (d : SessionData.t) (w : World) :
  APIResponse.success response = true ->
  APIResponse.data response = Some d ->
  SessionData.session_id d <> "" ->
  let w' := startSession_resume (Fulfilled response) w in
  sessionId (store w') = Some (SessionData.session_id d)
  /\ currentStage (store w') = "initializing"
  /\ stageDescription (store w') = MSG_SESSION_CREATED
  /\ progressPercentage (store w') = 0%Z
  /\ isLoading (store w') = false
  /\ error (store w') = error (store w)
  /\ _eventSource (store w') = None
  /\ sources w' = held_closed w
  /\ pending w'
     = (pending w ++ [AwaitSessionState (SessionData.session_id d)])%list
  /\ (exists closed : list Effect,
        trace w'
        = (trace w ++ closed
             ++ [RequestSessionState (SessionData.session_id d)])%list
        /\ closed
           = match _eventSource (store w) with
             | Some h => [CloseEventSource h]
             | None => []
             end)
  /\ conversationHistory (store w') = conversationHistory (store w)
  /\ userRequirement (store w') = userRequirement (store w)
  /\ lyricsVersions (store w') = lyricsVersions (store w)
  /\ debugLogs (store w') = debugLogs (store w)
  /\ sessionResult (store w') = sessionResult (store w).
Proof.
  intros Hok Hdata Hid w'. subst w'.
  unfold startSession_resume. rewrite Hok, Hdata.
  unfold connectToStream_call, held_closed. cbn.
  destruct (decide (SessionData.session_id d = "")) as [|_];
    [contradiction |].
  destruct (_eventSource (store w)) as [h|] eqn:Hes; cbn;
    rewrite <- ?app_assoc; repeat split; try assumption;
    (eexists; split; [| reflexivity]; reflexivity).
Qed.

Lemma startSession_success_connects_witness :
  APIResponse.success (ok_response session_data_s1) = true
  /\ APIResponse.data (ok_response session_data_s1) = Some session_data_s1
  /\ SessionData.session_id session_data_s1 <> ""
  /\ sessionId
       (store (startSession_resume (Fulfilled (ok_response session_data_s1))
                 world_connected)) = Some "s1"
  /\ sources (startSession_resume (Fulfilled (ok_response session_data_s1))
                world_connected) = [Closed].
Proof.
  split; [reflexivity |]. split; [reflexivity |]. split; [discriminate |].
  destruct (startSession_success_connects (ok_response session_data_s1)
              session_data_s1 world_connected eq_refl eq_refl
              ltac:(discriminate))
    as (Hsid & _ & _ & _ & _ & _ & _ & Hsrc & _).
  split; [exact Hsid | exact Hsrc].
Defined.

(** An empty-string session id counts as no session: the guard
    [if (!sessionId) return] makes [sendMessage], [reviewLyrics],
    [connectToStream] and [fetchSessionResult] return at once, and a
    [complete] event fetches nothing. *)
Theorem empty_session_id_is_noop (w : World) (content : string)
    (version : number) (approved : bool) (feedback : option string)
    (h : Handle) (data : Json) :
  sessionId (store w) = Some "" ->
  sendMessage_call content w = w
  /\ reviewLyrics_call version approved feedback w = w
  /\ connectToStream_call w = w
  /\ fetchSessionResult_call w = w
  /\ step (Deliver h (Ev_complete data)) w = w
  /\ home_redirect (store w) = None.
Proof.
  intros Hempty.
  unfold sendMessage_call, reviewLyrics_call, connectToStream_call,
    fetchSessionResult_call, home_redirect. cbn [step handle].
  unfold fetchSessionResult_call. rewrite Hempty. cbn.
  repeat split. destruct (sources w !! h) as [[|]|]; reflexivity.
Qed.

Lemma empty_session_id_is_noop_witness :
  sessionId (store world_empty_id) = Some ""
  /\ connectToStream_call world_empty_id = world_empty_id
  /\ sendMessage_call "hello" world_empty_id = world_empty_id.
Proof.
  split; [reflexivity |].
  destruct (empty_session_id_is_noop world_empty_id "hello" 1%Z true None
              0 JNull eq_refl) as (Hsend & _ & Hconnect & _).
  split; [exact Hconnect | exact Hsend].
Defined.

(** The home page, from a fresh store: after [handleStartNewSession] and
    the settlement of its request the page redirects exactly when the
    response was successful and carried a non-empty session id, and then to
    the chat page of that id; in every case the loading state has ended.  A
    failed start never redirects and records the failure message, and the
    error box of the page shows that message whenever it is not empty: for
    every failed response and for a rejection that is not an [Error] (the
    fallback text), and for a thrown [Error] unless its message is empty,
    in which case the box stays hidden.  After a successful start the box is
    hidden. *)
Theorem home_page_redirects_on_success (r : Settled SessionData.t)
    (url : string) :
  let w := run [handleStartNewSession; Settle 0 (SettleStartSession r)]
             initial_world in
  (home_redirect (store w) = Some url <->
   exists (response : APIResponse.t SessionData.t) (d : SessionData.t),
     r = Fulfilled response
     /\ APIResponse.success response = true
     /\ APIResponse.data response = Some d
     /\ SessionData.session_id d <> ""
     /\ url = "/chat/" ++ SessionData.session_id d)
  /\ isLoading (store w) = false
  /\ (start_failed r = true ->
      home_redirect (store w) = None
      /\ error (store w) = Some (failure_text r MSG_START_FAILED)
      /\ home_error_box (store w)
         = truthy_string (Some (failure_text r MSG_START_FAILED)))
  /\ (forall response : APIResponse.t SessionData.t,
        r = Fulfilled response -> start_failed r = true ->
        home_error_box (store w)
        = Some (failure_message response MSG_START_FAILED)
        /\ failure_message response MSG_START_FAILED <> "")
  /\ (r = Rejected OtherValue ->
      home_error_box (store w) = Some MSG_START_FAILED)
  /\ (forall m : string,
        r = Rejected (ErrorObject m) ->
        home_error_box (store w) = (if decide (m = "") then None else Some m))
  /\ (start_failed r = false -> home_error_box (store w) = None).
Proof.
  cbn [run foldl step handleStartNewSession call].
  unfold startSession_call. cbn [suspend emit update pending lookup].
  cbn [initial_world pending app list_lookup default resume].
  split; [| split; [| split; [| split; [| split; [| split]]]]].
  - destruct r as [response|reason]; cbn.
    + destruct (APIResponse.success response) eqn:Hok,
        (APIResponse.data response) as [d|] eqn:Hdata; cbn.
      * unfold connectToStream_call, home_redirect. cbn.
        destruct (decide (SessionData.session_id d = "")) as [He|Hne]; cbn.
        -- rewrite He. cbn. split; [discriminate |].
           intros (response' & d' & [= <-] & _ & Hd' & Hne' & _).
           congruence.
        -- destruct (decide (SessionData.session_id d = "")); [contradiction |].
           split.
           ++ intros [= <-]. exists response, d. repeat split; assumption.
           ++ intros (response' & d' & [= <-] & _ & Hd' & _ & ->).
              congruence.
      * split; [discriminate |].
        intros (response' & d' & [= <-] & _ & Hd' & _). congruence.
      * split; [discriminate |].
        intros (response' & d' & [= <-] & Hok' & _). congruence.
      * split; [discriminate |].
        intros (response' & d' & [= <-] & Hok' & _). congruence.
    + split; [discriminate |]. intros (response' & d' & [=] & _).
  - destruct r as [response|reason]; cbn; [| reflexivity].
    destruct (APIResponse.success response), (APIResponse.data response) as [d|];
      cbn; try reflexivity.
    unfold connectToStream_call. cbn.
    destruct (decide (SessionData.session_id d = "")); reflexivity.
  - intros Hfail. destruct r as [response|reason]; cbn in *;
      [| repeat split].
    destruct (APIResponse.success response), (APIResponse.data response);
      try discriminate; cbn; repeat split.
  - intros response -> Hfail. cbn in Hfail.
    assert (Hne : failure_message response MSG_START_FAILED <> "")
      by (apply string_or_nonempty, MSG_START_FAILED_nonempty).
    split; [| exact Hne].
    unfold home_error_box. cbn.
    destruct (APIResponse.success response), (APIResponse.data response);
      try discriminate; cbn;
      (destruct (decide (failure_message response MSG_START_FAILED = ""));
       [contradiction | reflexivity]).
  - intros ->. reflexivity.
  - intros m ->. reflexivity.
  - intros Hok. destruct r as [response|reason]; cbn in Hok;
      [| discriminate].
    unfold home_error_box. cbn.
    destruct (APIResponse.success response), (APIResponse.data response) as [d|];
      try discriminate; cbn.
    unfold connectToStream_call. cbn.
    destruct (decide (SessionData.session_id d = "")); reflexivity.
Qed.

(** ** Disconnecting and clearing *)

(** [disconnectFromStream] closes the event source the store holds, forgets
    it and marks the store disconnected; the session id, the replicated
    state and the suspended actions stay.  Without an event source it does
    nothing at all, so calling it twice is calling it once.
    [cleanupSessionStore] is the same operation. *)
Theorem disconnectFromStream_closes_held (w : World) :
  let w' := disconnectFromStream w in
  disconnectFromStream w' = w'
  /\ cleanupSessionStore w = w'
  /\ _eventSource (store w') = None
  /\ sources w' = held_closed w
  /\ sessionId (store w') = sessionId (store w)
  /\ replica (store w') = replica (store w)
  /\ pending w' = pending w
  /\ match _eventSource (store w) with
     | Some h =>
         isConnected (store w') = false
         /\ trace w' = (trace w ++ [CloseEventSource h])%list
         /\ sources w' !! h <> Some Live
     | None => w' = w
     end.
Proof.
  unfold cleanupSessionStore, disconnectFromStream, held_closed.
  destruct (_eventSource (store w)) as [h|] eqn:Hes; cbn.
  - repeat split. intros Hlive.
    apply list_lookup_insert_Some in Hlive.
    destruct Hlive as [(_ & Hc & _) | [Hne _]]; [discriminate | congruence].
  - rewrite Hes. repeat split.
Qed.

Lemma clearSession_fields (w : World) :
  store (clearSession w)
  = set_sessionStateKeys (sessionStateKeys (store w))
      (set_isLoading (isLoading (store w))
         (set_showDebugPanel (showDebugPanel (store w)) initial_store))
  /\ sources (clearSession w) = held_closed w
  /\ pending (clearSession w) = pending w
  /\ trace (clearSession w)
     = match _eventSource (store w) with
       | Some h => (trace w ++ [CloseEventSource h])%list
       | None => trace w
       end.
Proof.
  unfold clearSession, disconnectFromStream, held_closed.
  destruct (_eventSource (store w)) as [h0|];
    unfold close, update, emit; cbn [store sources pending trace];
    (split; [destruct (store w); reflexivity | repeat split]).
Qed.

(** [clearSession] puts every field of the store back to its initial value
    except the loading flag and the visibility of the debug panel, which it
    leaves as they are, and closes the event source the store held.  It does
    not cancel suspended actions.  Clearing twice is clearing once. *)
Theorem clearSession_resets_store (w : World) :
  let w' := clearSession w in
  store w'
  = set_sessionStateKeys (sessionStateKeys (store w))
      (set_isLoading (isLoading (store w))
         (set_showDebugPanel (showDebugPanel (store w)) initial_store))
  /\ sources w' = held_closed w
  /\ pending w' = pending w
  /\ (forall h : Handle, sources w' !! h = Some Live ->
        sources w !! h = Some Live /\ _eventSource (store w) <> Some h)
  /\ clearSession w' = w'.
Proof.
  destruct (clearSession_fields w) as (Hstore & Hsrc & Hpend & Htrace).
  split; [exact Hstore |]. split; [exact Hsrc |]. split; [exact Hpend |].
  split.
  - intros h. rewrite Hsrc. unfold held_closed.
    destruct (_eventSource (store w)) as [h0|]; intros Hlive.
    + apply list_lookup_insert_Some in Hlive.
      destruct Hlive as [(_ & Hc & _) | [Hne Hlive]]; [discriminate |].
      split; [exact Hlive | congruence].
    + split; [exact Hlive | discriminate].
  - assert (Hes : _eventSource (store (clearSession w)) = None)
      by (rewrite Hstore; reflexivity).
    destruct (clearSession_fields (clearSession w))
      as (Hstore2 & Hsrc2 & Hpend2 & Htrace2).
    unfold held_closed in Hsrc2. rewrite Hes in Hsrc2, Htrace2.
    rewrite Hstore in Hstore2.
    destruct (clearSession (clearSession w)) as [s2 src2 pend2 tr2].
    destruct (clearSession w) as [s1 src1 pend1 tr1].
    cbn [store sources pending trace] in *.
    rewrite Hstore2, Hsrc2, Hpend2, Htrace2, Hstore.
    f_equal.
Qed.

(** A [connectToStream] that was waiting for its snapshot when the session
    was cleared is not cancelled: when the snapshot arrives the continuation
    still writes it into the cleared store and opens and stores an event
    source for the old session id, although the store has no session id any
    more. *)
Theorem clearSession_keeps_connect_in_flight (i : nat) (sid : string)
    (response : APIResponse.t SessionState.t) (state : SessionState.t)
    (w : World) :
  pending w !! i = Some (AwaitSessionState sid) ->
  APIResponse.success response = true ->
  APIResponse.data response = Some state ->
  let w' := run [Call ClearSession;
                 Settle i (SettleSessionState (Fulfilled response))] w in
  sessionId (store w') = None
  /\ _eventSource (store w') = Some (length (sources w))
  /\ sources w' !! length (sources w) = Some Live
  /\ trace (clearSession w) `prefix_of` trace w'
  /\ last (trace w') = Some (OpenEventSource sid (length (sources w)))
  /\ currentStage (store w') = SessionState.current_stage state
  /\ conversationHistory (store w')
     = array_or (SessionState.conversation_history state) [].
Proof.
  intros Hp Hok Hdata w'. subst w'.
  cbn [run foldl step call].
  destruct (clearSession_fields w) as (Hstore & Hsrc & Hpc & _).
  assert (Hlen : length (sources (clearSession w)) = length (sources w)).
  { rewrite Hsrc. unfold held_closed. destruct (_eventSource (store w));
      [apply length_insert | reflexivity]. }
  assert (Hsid : sessionId (store (clearSession w)) = None)
    by (rewrite Hstore; reflexivity).
  rewrite Hpc, Hp. cbn [resume default].
  generalize dependent (clearSession w).
  intros [s src pend tr] _ _ _ Hlen Hsid. cbn [store sources] in *.
  unfold connectToStream_resume, take_pending. rewrite Hok, Hdata.
  cbn. rewrite Hlen.
  split; [exact Hsid |]. split; [reflexivity |]. split; [| split; [| split]].
  - rewrite lookup_app_r by lia. rewrite Hlen, Nat.sub_diag. reflexivity.
  - apply prefix_app_r. reflexivity.
  - apply last_snoc.
  - split; reflexivity.
Qed.

Lemma clearSession_keeps_connect_in_flight_witness :
  pending world_connecting !! 0 = Some (AwaitSessionState "s1")
  /\ APIResponse.success (ok_response snapshot_s1) = true
  /\ APIResponse.data (ok_response snapshot_s1) = Some snapshot_s1
  /\ sessionId
       (store (run [Call ClearSession;
                    Settle 0 (SettleSessionState
                                (Fulfilled (ok_response snapshot_s1)))]
                 world_connecting)) = None
  /\ _eventSource
       (store (run [Call ClearSession;
                    Settle 0 (SettleSessionState
                                (Fulfilled (ok_response snapshot_s1)))]
                 world_connecting)) = Some 0.
Proof.
  split; [reflexivity |]. split; [reflexivity |]. split; [reflexivity |].
  destruct (clearSession_keeps_connect_in_flight 0 "s1"
              (ok_response snapshot_s1) snapshot_s1 world_connecting
              eq_refl eq_refl eq_refl) as (Hsid & Hes & _).
  split; [exact Hsid | exact Hes].
Defined.

(** ** The final result *)

Lemma delete_snoc (A : Type) (l : list A) (x : A) :
  delete (length l) (l ++ [x])%list = l.
Proof. rewrite (delete_middle l [] x). apply app_nil_r. Qed.

(** The continuation of [fetchSessionResult] can change one field only,
    [sessionResult], and changes it only on a successful response that
    carries a result.  A rejected or unsuccessful fetch is swallowed: no
    error is recorded, nothing is retried, and a result the store already
    has is kept. *)
Theorem fetchSessionResult_only_sets_result (r : Settled SessionResult.t)
    (w : World) :
  let w' := fetchSessionResult_resume r w in
  set_sessionResult (sessionResult (store w)) (store w') = store w
  /\ sources w' = sources w
  /\ pending w' = pending w
  /\ trace w' = trace w
  /\ (sessionResult (store w') = sessionResult (store w)
      \/ exists (response : APIResponse.t SessionResult.t)
           (result : SessionResult.t),
           r = Fulfilled response
           /\ APIResponse.success response = true
           /\ APIResponse.data response = Some result
           /\ sessionResult (store w') = Some result)
  /\ (is_Some (sessionResult (store w)) ->
      is_Some (sessionResult (store w'))).
Proof.
  unfold fetchSessionResult_resume.
  destruct r as [response|reason].
  - destruct (APIResponse.success response) eqn:Hok,
      (APIResponse.data response) as [result|] eqn:Hdata;
      cbn [update store sources pending trace].
    + split; [destruct (store w); reflexivity |].
      repeat split; [right; exists response, result; auto | eauto].
    + split; [destruct (store w); reflexivity |].
      repeat split; [left; reflexivity | tauto].
    + split; [destruct (store w); reflexivity |].
      repeat split; [left; reflexivity | tauto].
    + split; [destruct (store w); reflexivity |].
      repeat split; [left; reflexivity | tauto].
  - split; [destruct (store w); reflexivity |].
    repeat split; [left; reflexivity | tauto].
Qed.

(** A [complete] event of a live source, with a session id in the store,
    issues exactly one result request for that id and changes no field; when
    that request is fulfilled with a result, the result is stored and
    everything else in the store is as it was before the event. *)
Theorem complete_event_fetches_result (h : Handle) (sid : string)
    (data : Json) (response : APIResponse.t SessionResult.t)
    (result : SessionResult.t) (w : World) :
  sources w !! h = Some Live ->
  sessionId (store w) = Some sid ->
  sid <> "" ->
  APIResponse.success response = true ->
  APIResponse.data response = Some result ->
  let w1 := step (Deliver h (Ev_complete data)) w in
  let w2 := step (Settle (length (pending w))
                    (SettleSessionResult (Fulfilled response))) w1 in
  store w1 = store w
  /\ trace w1 = (trace w ++ [RequestSessionResult sid])%list
  /\ pending w1 = (pending w ++ [AwaitSessionResult])%list
  /\ store w2 = set_sessionResult (Some result) (store w)
  /\ sources w2 = sources w
  /\ pending w2 = pending w
  /\ trace w2 = trace w1.
Proof.
  intros Hlive Hsid Hne Hok Hdata w1 w2. subst w2 w1.
  cbn [step]. rewrite Hlive. cbn [handle].
  unfold fetchSessionResult_call.
  rewrite Hsid, (truthy_string_Some sid Hne).
  cbn [suspend emit store sources pending trace].
  rewrite lookup_app_r by lia. rewrite Nat.sub_diag.
  cbn [lookup list_lookup resume default take_pending store sources pending
       trace].
  unfold fetchSessionResult_resume. rewrite Hok, Hdata.
  cbn [update store sources pending trace].
  repeat split. apply delete_snoc.
Qed.

Lemma complete_event_fetches_result_witness :
  sources world_connected !! 0 = Some Live
  /\ sessionId (store world_connected) = Some "s1"
  /\ "s1" <> ""
  /\ APIResponse.success (ok_response result_s1) = true
  /\ APIResponse.data (ok_response result_s1) = Some result_s1
  /\ store (step (Settle 0 (SettleSessionResult
                              (Fulfilled (ok_response result_s1))))
              (step (Deliver 0 (Ev_complete JNull)) world_connected))
     = set_sessionResult (Some result_s1) (store world_connected).
Proof.
  split; [reflexivity |]. split; [reflexivity |]. split; [discriminate |].
  split; [reflexivity |]. split; [reflexivity |].
  destruct (complete_event_fetches_result 0 "s1" JNull
              (ok_response result_s1) result_s1 world_connected
              eq_refl eq_refl ltac:(discriminate) eq_refl eq_refl)
    as (_ & _ & _ & Hstore & _).
  exact Hstore.
Defined.

(** ** Loading a snapshot *)

(** The snapshot wins over everything replicated before it: writing a
    snapshot into the store gives the same store whatever earlier snapshot,
    state update, conversation turn or debug log had been applied.  It
    leaves the session id (even when the snapshot names another one), the
    result, the error, the flags and the event source alone, and it takes
    the debug logs as they come, without the cap of 50. *)
Theorem hydrate_snapshot_wins (state state' : SessionState.t)
    (data : StateUpdate.t) (turn : ConversationTurn.t) (log : DebugLog.t)
    (s : SessionStore) :
  hydrate state (hydrate state' s) = hydrate state s
  /\ hydrate state (on_state_update data s) = hydrate state s
  /\ hydrate state (addConversationTurn turn s) = hydrate state s
  /\ hydrate state (addDebugLog log s) = hydrate state s
  /\ sessionId (hydrate state s) = sessionId s
  /\ sessionResult (hydrate state s) = sessionResult s
  /\ error (hydrate state s) = error s
  /\ isLoading (hydrate state s) = isLoading s
  /\ isConnected (hydrate state s) = isConnected s
  /\ connectionError (hydrate state s) = connectionError s
  /\ _eventSource (hydrate state s) = _eventSource s
  /\ debugLogs (hydrate state s)
     = default [] (SessionState.debug_logs state).
Proof.
  destruct s. repeat split.
Qed.

(** A snapshot request that is fulfilled without success, or without data,
    leaves the replicated state as it was and reports nothing, and the
    subscription is opened all the same. *)
Theorem unsuccessful_snapshot_still_subscribes (sid : string)
    (response : APIResponse.t SessionState.t) (w : World) :
  APIResponse.success response = false \/ APIResponse.data response = None ->
  let w' := connectToStream_resume sid (Fulfilled response) w in
  set__eventSource (_eventSource (store w)) (store w') = store w
  /\ _eventSource (store w') = Some (length (sources w))
  /\ sources w' = (sources w ++ [Live])%list
  /\ trace w' = (trace w ++ [OpenEventSource sid (length (sources w))])%list
  /\ pending w' = pending w.
Proof.
  intros Hbad. unfold connectToStream_resume.
  assert (Hskip :
    match APIResponse.success response, APIResponse.data response with
    | true, Some state => update (hydrate state) w
    | _, _ => w
    end = w).
  { destruct Hbad as [-> | ->]; [reflexivity |].
    destruct (APIResponse.success response); reflexivity. }
  rewrite Hskip. cbn [createEventSource update emit store sources pending trace].
  split; [destruct (store w); reflexivity |]. repeat split.
Qed.

Lemma unsuccessful_snapshot_still_subscribes_witness :
  (APIResponse.success (@failed_response SessionState.t "no such session")
   = false
   \/ APIResponse.data (@failed_response SessionState.t "no such session")
      = None)
  /\ sources (connectToStream_resume "s1"
                (Fulfilled (failed_response "no such session"))
                world_connecting) = [Live].
Proof.
  split; [left; reflexivity |].
  destruct (unsuccessful_snapshot_still_subscribes "s1"
              (failed_response "no such session") world_connecting
              (or_introl eq_refl)) as (_ & _ & Hsrc & _).
  exact Hsrc.
Defined.



(** ** Conversation turns *)

Lemma set_conversationHistory_twice (a b : list ConversationTurn.t)
    (s : SessionStore) :
  set_conversationHistory a (set_conversationHistory b s)
  = set_conversationHistory a s.
Proof. reflexivity. Qed.

Lemma set_conversationHistory_same (s : SessionStore) :
  set_conversationHistory (conversationHistory s) s = s.
Proof. destruct s; reflexivity. Qed.

(** The [chat_message] events of a live source are appended to the
    conversation one by one, in the order of arrival and without removing
    duplicates; nothing else in the store, no event source and no request is
    touched. *)
Theorem chat_messages_append_in_order (h : Handle)
    (turns : list ConversationTurn.t) (w : World) :
  sources w !! h = Some Live ->
  let w' := run (chat_messages h turns) w in
  conversationHistory (store w')
  = (conversationHistory (store w) ++ turns)%list
  /\ length (conversationHistory (store w'))
     = length (conversationHistory (store w)) + length turns
  /\ set_conversationHistory (conversationHistory (store w)) (store w')
     = store w
  /\ sources w' = sources w
  /\ pending w' = pending w
  /\ trace w' = trace w.
Proof.
  intros Hlive w'. subst w'.
  assert (Hmain :
    conversationHistory (store (run (chat_messages h turns) w))
    = (conversationHistory (store w) ++ turns)%list
    /\ set_conversationHistory (conversationHistory (store w))
         (store (run (chat_messages h turns) w)) = store w
    /\ sources (run (chat_messages h turns) w) = sources w
    /\ pending (run (chat_messages h turns) w) = pending w
    /\ trace (run (chat_messages h turns) w) = trace w).
  { revert w Hlive. induction turns as [|turn turns IH]; intros w Hlive.
    - cbn. rewrite app_nil_r.
      split; [reflexivity |].
      split; [apply set_conversationHistory_same | repeat split].
    - change (run (chat_messages h (turn :: turns)) w)
        with (run (chat_messages h turns)
                (step (Deliver h (Ev_chat_message turn)) w)).
      assert (Hstep : step (Deliver h (Ev_chat_message turn)) w
                      = update (addConversationTurn turn) w)
        by (cbn [step]; rewrite Hlive; reflexivity).
      rewrite Hstep.
      destruct (IH (update (addConversationTurn turn) w) Hlive)
        as (Hhist & Hset & Hsrc & Hpend & Htrace).
      rewrite Hhist, Hsrc, Hpend, Htrace.
      split; [cbn; rewrite <- app_assoc; reflexivity |].
      split; [| repeat split].
      rewrite <- (set_conversationHistory_twice _
                    (conversationHistory
                       (store (update (addConversationTurn turn) w)))).
      rewrite Hset. cbn [store update]. unfold addConversationTurn.
      rewrite set_conversationHistory_twice.
      apply set_conversationHistory_same. }
  destruct Hmain as (Hhist & Hset & Hsrc & Hpend & Htrace).
  rewrite Hhist, length_app. repeat split; assumption.
Qed.

Lemma chat_messages_append_in_order_witness :
  sources world_connected !! 0 = Some Live
  /\ conversationHistory
       (store (run (chat_messages 0 [turn_hello; turn_hello])
                 world_connected))
     = [turn_hello; turn_hello; turn_hello].
Proof.
  split; [reflexivity |].
  destruct (chat_messages_append_in_order 0 [turn_hello; turn_hello]
              world_connected eq_refl) as (Hhist & _).
  exact Hhist.
Defined.

(** ** More on lyrics reviews *)

Lemma review_entry_twice (version : number) (a a' : bool)
    (f f' : option string) (lyrics : LyricsVersion.t) :
  review_entry version a f (review_entry version a' f' lyrics)
  = review_entry version a f lyrics.
Proof.
  unfold review_entry.
  destruct (decide (LyricsVersion.version lyrics = version)) as [He|Hne]; cbn.
  - destruct (decide (LyricsVersion.version lyrics = version));
      [reflexivity | contradiction].
  - destruct (decide (LyricsVersion.version lyrics = version));
      [contradiction | reflexivity].
Qed.

Lemma review_entry_commute (v1 v2 : number) (a1 a2 : bool)
    (f1 f2 : option string) (lyrics : LyricsVersion.t) :
  v1 <> v2 ->
  review_entry v1 a1 f1 (review_entry v2 a2 f2 lyrics)
  = review_entry v2 a2 f2 (review_entry v1 a1 f1 lyrics).
Proof.
  intros Hne. unfold review_entry.
  destruct (decide (LyricsVersion.version lyrics = v1)) as [H1|H1],
    (decide (LyricsVersion.version lyrics = v2)) as [H2|H2]; cbn;
    repeat (destruct (decide _)); try reflexivity; congruence.
Qed.

Lemma review_entry_other (version : number) (a : bool) (f : option string)
    (lyrics : LyricsVersion.t) :
  LyricsVersion.version lyrics <> version ->
  review_entry version a f lyrics = lyrics.
Proof.
  intros Hne. unfold review_entry.
  destruct (decide (LyricsVersion.version lyrics = version));
    [contradiction | reflexivity].
Qed.

Lemma reviewLyrics_success_store (version : number) (approved : bool)
    (feedback : option string) (response : APIResponse.t Json) (w : World) :
  APIResponse.success response = true ->
  store (reviewLyrics_resume version approved feedback (Fulfilled response) w)
  = set_isLoading false
      (set_lyricsVersions
         (review_entry version approved feedback
            <$> lyricsVersions (store w)) (store w)).
Proof. intros Hok. cbn. rewrite Hok. reflexivity. Qed.

Lemma review_store_twice (f g : LyricsVersion.t -> LyricsVersion.t)
    (s : SessionStore) :
  set_isLoading false
    (set_lyricsVersions
       (f <$> lyricsVersions
                (set_isLoading false
                   (set_lyricsVersions (g <$> lyricsVersions s) s)))
       (set_isLoading false (set_lyricsVersions (g <$> lyricsVersions s) s)))
  = set_isLoading false (set_lyricsVersions (f <$> (g <$> lyricsVersions s)) s).
Proof. reflexivity. Qed.

(** Successful reviews compose by version: a second review of the same
    version replaces the first altogether (so repeating a review changes
    nothing), and reviews of different versions give the same store in
    either order. *)
Theorem reviews_compose_by_version (v1 v2 : number) (a a1 a2 : bool)
    (f f1 f2 : option string) (r r1 r2 : APIResponse.t Json) (w : World) :
  APIResponse.success r = true ->
  APIResponse.success r1 = true ->
  APIResponse.success r2 = true ->
  v1 <> v2 ->
  store (reviewLyrics_resume v1 a f (Fulfilled r)
           (reviewLyrics_resume v1 a1 f1 (Fulfilled r1) w))
  = store (reviewLyrics_resume v1 a f (Fulfilled r) w)
  /\ store (reviewLyrics_resume v1 a1 f1 (Fulfilled r1)
              (reviewLyrics_resume v2 a2 f2 (Fulfilled r2) w))
     = store (reviewLyrics_resume v2 a2 f2 (Fulfilled r2)
                (reviewLyrics_resume v1 a1 f1 (Fulfilled r1) w)).
Proof.
  intros Hr Hr1 Hr2 Hne.
  rewrite !reviewLyrics_success_store by assumption.
  rewrite !review_store_twice, <- !list_fmap_compose.
  assert (Hsame :
    review_entry v1 a f ∘ review_entry v1 a1 f1 <$> lyricsVersions (store w)
    = review_entry v1 a f <$> lyricsVersions (store w)).
  { apply list_fmap_ext. intros i x _. apply review_entry_twice. }
  assert (Hswap :
    review_entry v1 a1 f1 ∘ review_entry v2 a2 f2
      <$> lyricsVersions (store w)
    = review_entry v2 a2 f2 ∘ review_entry v1 a1 f1
        <$> lyricsVersions (store w)).
  { apply list_fmap_ext. intros i x _.
    apply review_entry_commute. exact Hne. }
  rewrite Hsame, Hswap. split; reflexivity.
Qed.

Lemma reviews_compose_by_version_witness :
  APIResponse.success (ok_response JNull) = true
  /\ (1 <> 2)%Z
  /\ store (reviewLyrics_resume 1%Z true None (Fulfilled (ok_response JNull))
              (reviewLyrics_resume 1%Z false (Some "too slow")
                 (Fulfilled (ok_response JNull)) world_connected))
     = store (reviewLyrics_resume 1%Z true None
                (Fulfilled (ok_response JNull)) world_connected).
Proof.
  split; [reflexivity |]. split; [discriminate |].
  destruct (reviews_compose_by_version 1%Z 2%Z true false true None
              (Some "too slow") None (ok_response JNull)
              (ok_response JNull) (ok_response JNull) world_connected
              eq_refl eq_refl eq_refl ltac:(discriminate)) as [Hsame _].
  exact Hsame.
Defined.

(** A successful review of a version the store does not have changes no
    lyrics entry and reports nothing: the store only leaves the loading
    state. *)
Theorem review_of_unknown_version_changes_nothing (version : number)
    (approved : bool) (feedback : option string)
    (response : APIResponse.t Json) (w : World) :
  APIResponse.success response = true ->
  (forall lyrics : LyricsVersion.t,
     lyrics ∈ lyricsVersions (store w) ->
     LyricsVersion.version lyrics <> version) ->
  store (reviewLyrics_resume version approved feedback (Fulfilled response) w)
  = set_isLoading false (store w).
Proof.
  intros Hok Hnone.
  rewrite reviewLyrics_success_store by exact Hok.
  assert (Hsame : review_entry version approved feedback
                    <$> lyricsVersions (store w) = lyricsVersions (store w)).
  { rewrite <- (list_fmap_id (lyricsVersions (store w))) at 2.
    apply list_fmap_ext. intros i x Hx. cbn.
    apply review_entry_other, Hnone. apply list_elem_of_lookup. eauto. }
  rewrite Hsame. destruct (store w). reflexivity.
Qed.

Lemma review_of_unknown_version_changes_nothing_witness :
  APIResponse.success (ok_response JNull) = true
  /\ lyricsVersions
       (store (reviewLyrics_resume 7%Z true None
                 (Fulfilled (ok_response JNull)) world_connected))
     = [lyrics_v1; lyrics_v2].
Proof.
  split; [reflexivity |].
  rewrite (review_of_unknown_version_changes_nothing 7%Z true None
             (ok_response JNull) world_connected eq_refl).
  - reflexivity.
  - intros lyrics Hin. change (lyricsVersions (store world_connected))
      with [lyrics_v1; lyrics_v2] in Hin.
    apply elem_of_cons in Hin as [-> | Hin]; [discriminate |].
    apply list_elem_of_singleton in Hin as ->. discriminate.
Defined.

(** ** What a settled request does to the error *)

(** When [sendMessage] or [reviewLyrics] fails, the store records the
    message (the response's when it has a non-empty one, the thrown
    [Error]'s, else the fallback text) and the lyrics stay as they were.
    When it succeeds, the error field is not touched: an error recorded
    earlier stays on display.  Either way the loading state ends. *)
Theorem settled_request_and_error (r : Settled Json) (version : number)
    (approved : bool) (feedback : option string) (w : World) :
  error (store (sendMessage_resume r w))
  = (if request_failed r then Some (failure_text r MSG_SEND_FAILED)
     else error (store w))
  /\ error (store (reviewLyrics_resume version approved feedback r w))
     = (if request_failed r then Some (failure_text r MSG_REVIEW_FAILED)
        else error (store w))
  /\ (if request_failed r
      then lyricsVersions
             (store (reviewLyrics_resume version approved feedback r w))
           = lyricsVersions (store w)
      else True)
  /\ isLoading (store (sendMessage_resume r w)) = false
  /\ isLoading (store (reviewLyrics_resume version approved feedback r w))
     = false
  /\ error_banner (store (sendMessage_resume r w))
     = (if request_failed r
        then match truthy_string (Some (failure_text r MSG_SEND_FAILED)) with
             | Some e => Some e
             | None => truthy_string (connectionError (store w))
             end
        else error_banner (store w)).
Proof.
  destruct r as [response|reason]; cbn.
  - destruct (APIResponse.success response); cbn; repeat split.
  - repeat split.
Qed.

(** ** Slices of the debug log *)

(** [slice(start)] never fails and always returns a suffix of the list: the
    last [-start] elements for a negative start, what follows the first
    [start] elements otherwise; a start beyond either end gives the whole
    list or the empty one. *)
Theorem slice_keeps_a_suffix (A : Type) (start : Z) (l : list A) :
  slice start l `suffix_of` l
  /\ Z.of_nat (length (slice start l))
     = (if decide (start < 0)%Z
        then Z.min (- start) (Z.of_nat (length l))
        else Z.max (Z.of_nat (length l) - start) 0)
  /\ ((start <= - Z.of_nat (length l))%Z -> slice start l = l)
  /\ ((Z.of_nat (length l) <= start)%Z -> slice start l = []).
Proof.
  unfold slice. split; [apply suffix_drop |].
  split; [rewrite length_drop; destruct (decide (start < 0)%Z); lia |].
  split; intros Hstart.
  - destruct (decide (start < 0)%Z).
    + replace (Z.to_nat _) with 0 by lia. reflexivity.
    + assert (length l = 0) as Hnil by lia.
      apply nil_length_inv in Hnil. subst l. apply drop_nil.
  - apply drop_ge. destruct (decide (start < 0)%Z); lia.
Qed.

(** The debug panel of the chat page shows the last ten of all the logs
    appended, in the order of arrival: its [slice(-10)] of the buffer that
    [addDebugLog] caps at 50 loses nothing it would show without the cap. *)
Theorem debug_panel_shows_last_ten (s : SessionStore) (log : DebugLog.t)
    (logs : list DebugLog.t) :
  visible_debug_logs (addDebugLogs (log :: logs) s)
  = drop (length (debugLogs s ++ log :: logs) - 10)
      (debugLogs s ++ log :: logs)
  /\ length (visible_debug_logs (addDebugLogs (log :: logs) s)) <= 10
  /\ visible_debug_logs (addDebugLogs (log :: logs) initial_store)
     = drop (length (log :: logs) - 10) (log :: logs).
Proof.
  assert (Hgen : forall s0 : SessionStore,
    visible_debug_logs (addDebugLogs (log :: logs) s0)
    = drop (length (debugLogs s0 ++ log :: logs) - 10)
        (debugLogs s0 ++ log :: logs)).
  { intros s0. unfold visible_debug_logs.
    rewrite addDebugLogs_nonempty by discriminate. rewrite slice_last.
    unfold slice. destruct (decide (-10 < 0)%Z); [| lia].
    rewrite drop_drop, length_drop. f_equal. lia. }
  split; [apply Hgen |]. split; [rewrite Hgen, length_drop; lia |].
  apply (Hgen initial_store).
Qed.

(** ** The cap on debug logs in every run *)





(** ** Event sources over a run *)


Lemma held_closed_length (w : World) :
  length (held_closed w) = length (sources w).
Proof.
  unfold held_closed. destruct (_eventSource (store w));
    [apply length_insert | reflexivity].
Qed.




Lemma held_is_live_step (ev : Event) (w : World) :
  held_is_live w -> held_is_live (step ev w).
Proof.
  intros Hheld h.
  destruct (step_subscription ev w)
    as [(-> & -> & _) | [(-> & _) | [(-> & _) | (-> & -> & _)]]];
    try discriminate.
  - apply Hheld.
  - intros [= <-]. rewrite lookup_app_r by lia.
    rewrite Nat.sub_diag. reflexivity.
Qed.

(** In every run from the initial store, overlapping calls included, the
    event source the store holds is a live one: the store never keeps a
    handle to a source it has closed, so [disconnectFromStream] always closes
    a live subscription. *)
Theorem held_source_is_live (evs : list Event) (h : Handle) :
  _eventSource (store (run evs initial_world)) = Some h ->
  sources (run evs initial_world) !! h = Some Live.
Proof.
  assert (Hinv : forall w : World, held_is_live w -> held_is_live (run evs w)).
  { induction evs as [|ev evs IH]; intros w Hw; [exact Hw |].
    cbn [run foldl]. apply IH, held_is_live_step, Hw. }
  apply Hinv. intros h0 Hh0. discriminate.
Qed.

Lemma held_source_is_live_witness :
  _eventSource (store (run overlapping_connects initial_world)) = Some 1
  /\ sources (run overlapping_connects initial_world) !! 1 = Some Live.
Proof.
  split; [reflexivity |].
  apply (held_source_is_live overlapping_connects 1). reflexivity.
Defined.

(** ** The chat page *)

Lemma disconnectFromStream_fields (w : World) :
  _eventSource (store (disconnectFromStream w)) = None
  /\ sources (disconnectFromStream w) = held_closed w
  /\ pending (disconnectFromStream w) = pending w
  /\ sessionId (store (disconnectFromStream w)) = sessionId (store w)
  /\ replica (store (disconnectFromStream w)) = replica (store w).
Proof.
  unfold disconnectFromStream, held_closed.
  destruct (_eventSource (store w)) as [h|] eqn:Hes; cbn; repeat split.
  exact Hes.
Qed.

(** The effect of the chat page does nothing when the route's session is
    the one the page rendered with.  Otherwise it switches the store to the
    route's session: at once the held event source is closed and the new id
    is stored while the store still shows what it replicated for the
    previous session; when the timer has called [connectToStream] and the
    snapshot has arrived, the store holds the snapshot and one new event
    source, the only live one. *)
Theorem chat_page_switches_session (sid : string) (current : option string)
    (response : APIResponse.t SessionState.t) (state : SessionState.t)
    (w : World) :
  sid <> "" ->
  current <> Some sid ->
  one_subscription w ->
  APIResponse.success response = true ->
  APIResponse.data response = Some state ->
  let w1 := run (chat_page_effect sid current).1 w in
  let w3 := run ((chat_page_effect sid current).2
                   ++ [Settle (length (pending w))
                         (SettleSessionState (Fulfilled response))]) w1 in
  chat_page_effect sid (Some sid) = ([], [])
  /\ chat_page_effect sid current
     = ([Call DisconnectFromStream; Call (SetState_sessionId sid)],
        [Call ConnectToStream])
  /\ sessionId (store w1) = Some sid
  /\ replica (store w1) = replica (store w)
  /\ (forall h : Handle, sources w1 !! h <> Some Live)
  /\ sessionId (store w3) = Some sid
  /\ _eventSource (store w3) = Some (length (sources w))
  /\ (forall h : Handle,
        sources w3 !! h = Some Live <-> h = length (sources w))
  /\ currentStage (store w3) = SessionState.current_stage state
  /\ conversationHistory (store w3)
     = array_or (SessionState.conversation_history state) []
  /\ lyricsVersions (store w3)
     = array_or (SessionState.lyrics_versions state) []
  /\ pending w3 = pending w.
Proof.
  intros Hne Hcur Hone Hok Hdata w1 w3. subst w3 w1.
  assert (Hsame : chat_page_effect sid (Some sid) = ([], [])).
  { unfold chat_page_effect. rewrite (truthy_string_Some sid Hne).
    destruct (decide (Some sid = Some sid)); [reflexivity | congruence]. }
  assert (Heff : chat_page_effect sid current
                 = ([Call DisconnectFromStream; Call (SetState_sessionId sid)],
                    [Call ConnectToStream])).
  { unfold chat_page_effect. rewrite (truthy_string_Some sid Hne).
    destruct (decide (Some sid = current)); [congruence | reflexivity]. }
  rewrite Heff. cbn [fst snd app run foldl step call].
  destruct (disconnectFromStream_fields w)
    as (Hes & Hsrc & Hpend & Hsid & Hrep).
  assert (Hdead : forall h : Handle, held_closed w !! h <> Some Live)
    by (intros h Hl; exact (held_closed_not_live w h Hone Hl)).
  generalize dependent (disconnectFromStream w).
  intros [s src pend tr]. cbn [store sources pending trace].
  intros Hes -> -> Hsid Hrep.
  unfold connectToStream_call, update. cbn [store sources pending trace].
  cbn [sessionId set_sessionId]. rewrite (truthy_string_Some sid Hne).
  cbn [_eventSource set_sessionId]. rewrite Hes.
  unfold suspend, emit. cbn [store sources pending trace].
  assert (Hlook : (pending w ++ [AwaitSessionState sid])%list
                    !! length (pending w)
                  = Some (AwaitSessionState sid)).
  { rewrite lookup_app_r by lia. rewrite Nat.sub_diag. reflexivity. }
  rewrite Hlook.
  cbn [lookup list_lookup resume default].
  unfold connectToStream_resume, take_pending.
  cbn [store sources pending trace]. rewrite Hok, Hdata.
  unfold createEventSource, update, emit, id.
  cbn [store sources pending trace].
  rewrite held_closed_length, delete_snoc.
  split; [exact Hsame |]. split; [reflexivity |]. split; [reflexivity |].
  split; [rewrite <- Hrep; destruct s; reflexivity |].
  split; [exact Hdead |]. split; [reflexivity |]. split; [reflexivity |].
  split; [| repeat split].
  intros h. split.
  - intros Hl. apply lookup_app_Some in Hl as [Hl | [Hge Hl]].
    + destruct (Hdead h Hl).
    + rewrite held_closed_length in Hge, Hl.
      apply list_lookup_singleton_Some in Hl as [Hh _]. lia.
  - intros ->. rewrite lookup_app_r by (rewrite held_closed_length; lia).
    rewrite held_closed_length, Nat.sub_diag. reflexivity.
Qed.

Lemma chat_page_switches_session_witness :
  "s2" <> ""
  /\ Some "s1" <> Some "s2"
  /\ one_subscription world_connected
  /\ APIResponse.success (ok_response snapshot_s1) = true
  /\ APIResponse.data (ok_response snapshot_s1) = Some snapshot_s1
  /\ sessionId
       (store (run ((chat_page_effect "s2" (Some "s1")).2
                      ++ [Settle (length (pending world_connected))
                            (SettleSessionState
                               (Fulfilled (ok_response snapshot_s1)))])
                 (run (chat_page_effect "s2" (Some "s1")).1
                    world_connected))) = Some "s2"
  /\ _eventSource
       (store (run ((chat_page_effect "s2" (Some "s1")).2
                      ++ [Settle (length (pending world_connected))
                            (SettleSessionState
                               (Fulfilled (ok_response snapshot_s1)))])
                 (run (chat_page_effect "s2" (Some "s1")).1
                    world_connected))) = Some 1.
Proof.
  assert (Hone : one_subscription world_connected).
  { intros h Hl. destruct h as [|h]; [reflexivity |].
    destruct h; discriminate. }
  split; [discriminate |]. split; [discriminate |]. split; [exact Hone |].
  split; [reflexivity |]. split; [reflexivity |].
  destruct (chat_page_switches_session "s2" (Some "s1")
              (ok_response snapshot_s1) snapshot_s1 world_connected
              ltac:(discriminate) ltac:(discriminate) Hone eq_refl eq_refl)
    as (_ & _ & _ & _ & _ & Hsid & Hes & _).
  split; [exact Hsid | exact Hes].
Defined.

Lemma own_property_label_nonempty (stage label : string) :
  own_property stage stageMap = Some label -> label <> "".
Proof.
  unfold stageMap. cbn [own_property].
  repeat (destruct (decide (_ = stage));
          [intros [= <-]; discriminate |]).
  discriminate.
Qed.

Lemma own_property_none (key : string) (members : list (string * string)) :
  own_property key members = None <-> key ∉ members.*1.
Proof.
  induction members as [|[k v] members IH]; cbn.
  - split; [intros _; apply not_elem_of_nil | reflexivity].
  - rewrite not_elem_of_cons.
    destruct (decide (k = key)) as [->|Hne].
    + split; [discriminate | intros [Hc _]; congruence].
    + rewrite IH. split; [intros Hn; split; [congruence | exact Hn] | tauto].
Qed.

(** [getStageDisplayName] gives each of the nine stages its label, and
    returns any other stage name unchanged, provided the name is not one an
    object inherits; the text it returns is empty only for the empty stage
    name. *)
Theorem getStageDisplayName_falls_back (stage : string) :
  (forall label : string,
     (stage, label) ∈ stageMap -> getStageDisplayName stage = Text label)
  /\ (stage ∉ stageMap.*1 ->
      stage ∉ object_prototype_keys ->
      getStageDisplayName stage = Text stage)
  /\ (stage ∈ object_prototype_keys ->
      getStageDisplayName stage = InheritedMember stage)
  /\ (getStageDisplayName stage = Text "" <-> stage = "").
Proof.
  split; [| split; [| split]].
  - intros label Hin. unfold stageMap in Hin.
    repeat (apply elem_of_cons in Hin as [[= -> ->] | Hin];
            [reflexivity |]).
    apply elem_of_nil in Hin. destruct Hin.
  - intros Hnot Hproto. unfold getStageDisplayName.
    apply own_property_none in Hnot. rewrite Hnot.
    destruct (decide (stage ∈ object_prototype_keys));
      [contradiction | reflexivity].
  - intros Hin. unfold object_prototype_keys in Hin.
    repeat (apply elem_of_cons in Hin as [-> | Hin]; [reflexivity |]).
    apply elem_of_nil in Hin. destruct Hin.
  - unfold getStageDisplayName.
    destruct (own_property stage stageMap) as [label|] eqn:Hown.
    + apply own_property_label_nonempty in Hown as Hlabel.
      cbn. destruct (decide (label = "")); [contradiction |].
      split; [intros [= ->]; contradiction |].
      intros ->. discriminate Hown.
    + destruct (decide (stage ∈ object_prototype_keys)) as [Hin|Hnot].
      * split; [discriminate |]. intros ->.
        unfold object_prototype_keys in Hin.
        repeat (apply elem_of_cons in Hin as [Hc | Hin]; [discriminate |]).
        apply elem_of_nil in Hin. destruct Hin.
      * split; [intros [= ->]; reflexivity | intros ->; reflexivity].
Qed.

(** ** Merged keys and the connection events *)

Lemma from_option_Some_assoc (A : Type) (a b c : option A) :
  from_option Some (from_option Some a b) c
  = from_option Some a (from_option Some b c).
Proof. destruct c, b; reflexivity. Qed.

Lemma spread_assoc (k p1 p2 : PartialSessionState.t) :
  PartialSessionState.spread (PartialSessionState.spread k p1) p2
  = PartialSessionState.spread k (PartialSessionState.spread p1 p2).
Proof.
  destruct k, p1, p2. unfold PartialSessionState.spread.
  cbn [PartialSessionState.session_id PartialSessionState.current_stage
       PartialSessionState.stage_description
       PartialSessionState.progress_percentage
       PartialSessionState.conversation_history
       PartialSessionState.user_requirement
       PartialSessionState.lyrics_versions PartialSessionState.debug_logs].
  f_equal; apply from_option_Some_assoc.
Qed.

(** [updateSessionState] merges the keys of its argument into the store
    object: after it every key the argument has holds the argument's value
    and every key it does not have holds what it held before.  So two
    updates are one update with the merged keys, the later keys winning, an
    empty update changes nothing, and no update reaches the fields the pages
    read (the stage, the progress, the conversation and the rest keep their
    values). *)
Theorem updateSessionState_merges_keys (p1 p2 : PartialSessionState.t)
    (s : SessionStore) :
  let keys := sessionStateKeys s in
  let keys' := sessionStateKeys (updateSessionState p1 s) in
  (PartialSessionState.session_id keys'
   = match PartialSessionState.session_id p1 with
     | Some v => Some v
     | None => PartialSessionState.session_id keys
     end
   /\ PartialSessionState.current_stage keys'
      = match PartialSessionState.current_stage p1 with
        | Some v => Some v
        | None => PartialSessionState.current_stage keys
        end
   /\ PartialSessionState.stage_description keys'
      = match PartialSessionState.stage_description p1 with
        | Some v => Some v
        | None => PartialSessionState.stage_description keys
        end
   /\ PartialSessionState.progress_percentage keys'
      = match PartialSessionState.progress_percentage p1 with
        | Some v => Some v
        | None => PartialSessionState.progress_percentage keys
        end
   /\ PartialSessionState.conversation_history keys'
      = match PartialSessionState.conversation_history p1 with
        | Some v => Some v
        | None => PartialSessionState.conversation_history keys
        end
   /\ PartialSessionState.user_requirement keys'
      = match PartialSessionState.user_requirement p1 with
        | Some v => Some v
        | None => PartialSessionState.user_requirement keys
        end
   /\ PartialSessionState.lyrics_versions keys'
      = match PartialSessionState.lyrics_versions p1 with
        | Some v => Some v
        | None => PartialSessionState.lyrics_versions keys
        end
   /\ PartialSessionState.debug_logs keys'
      = match PartialSessionState.debug_logs p1 with
        | Some v => Some v
        | None => PartialSessionState.debug_logs keys
        end)
  /\ updateSessionState p2 (updateSessionState p1 s)
     = updateSessionState (PartialSessionState.spread p1 p2) s
  /\ updateSessionState PartialSessionState.empty s = s
  /\ set_sessionStateKeys (sessionStateKeys s) (updateSessionState p1 s) = s
  /\ replica (updateSessionState p1 s) = replica s
  /\ sessionId (updateSessionState p1 s) = sessionId s.
Proof.
  split; [| split; [| split; [| split; [| split]]]].
  - destruct s as [? ? ? ? ? ? ? ? ? ? ? ? ? ? ? keys0].
    destruct keys0, p1. cbn.
    repeat split;
      match goal with
      | |- from_option Some _ ?x = _ => destruct x; reflexivity
      end.
  - unfold updateSessionState.
    change (sessionStateKeys (set_sessionStateKeys ?k s)) with k.
    rewrite spread_assoc. reflexivity.
  - destruct s as [? ? ? ? ? ? ? ? ? ? ? ? ? ? ? keys]. destruct keys.
    reflexivity.
  - destruct s. reflexivity.
  - destruct s. reflexivity.
  - destruct s. reflexivity.
Qed.

(** The connection events overwrite each other: after [onopen] the store is
    connected with no connection error, after [onerror] it is disconnected
    with the connection failure text, whatever came before, and neither
    touches any other field.  So the error box of the chat page is shown
    after every stream error, and after a reconnect it still shows an error
    recorded by an action or an [error] event. *)
Theorem connection_events_overwrite (s : SessionStore) :
  (isConnected (on_open s) = true
   /\ connectionError (on_open s) = None
   /\ isConnected (on_error s) = false
   /\ connectionError (on_error s) = Some MSG_SSE_FAILED)
  /\ on_open (on_error s) = on_open s
  /\ on_error (on_open s) = on_error s
  /\ on_open s = set_connectionError None (set_isConnected true s)
  /\ on_error s
     = set_connectionError (Some MSG_SSE_FAILED) (set_isConnected false s)
  /\ set_connectionError (connectionError s)
       (set_isConnected (isConnected s) (on_open s)) = s
  /\ set_connectionError (connectionError s)
       (set_isConnected (isConnected s) (on_error s)) = s
  /\ error_banner (on_open s) = truthy_string (error s)
  /\ error_banner (on_error s)
     = Some (match truthy_string (error s) with
             | Some e => e
             | None => MSG_SSE_FAILED
             end)
  /\ (forall (h : Handle) (w : World),
        sources w !! h = Some Live ->
        store (step (Deliver h Ev_onopen) w) = on_open (store w)
        /\ store (step (Deliver h Ev_onerror) w) = on_error (store w)).
Proof.
  split; [repeat split |].
  destruct s as [? ? ? ? ? ? ? ? ? ? ? ? ? err ? ?].
  unfold error_banner. cbn.
  repeat split; try (destruct err as [e|]; cbn; try reflexivity;
                     destruct (decide (e = "")); reflexivity).
  - cbn [step]. rewrite H. reflexivity.
  - cbn [step]. rewrite H. reflexivity.
Qed.

(** ** One subscription when calls do not overlap *)

Lemma live_sources_elem (w : World) (h : Handle) :
  h ∈ live_sources w <-> sources w !! h = Some Live.
Proof.
  unfold live_sources. rewrite list_elem_of_filter, elem_of_seq.
  split; [tauto |]. intros Hl. split; [exact Hl |].
  apply lookup_lt_Some in Hl. lia.
Qed.

Lemma live_sources_NoDup (w : World) : NoDup (live_sources w).
Proof. apply NoDup_filter, NoDup_seq. Qed.

(** From the initial store, as long as [connectToStream] is never entered
    while an earlier call still waits for its snapshot, every state of the
    run has at most one live event source, and it is the one the store
    holds. *)
Theorem sequential_connects_keep_one_subscription (evs : list Event) :
  non_overlapping evs initial_world ->
  one_subscription (run evs initial_world)
  /\ (forall h1 h2 : Handle,
        sources (run evs initial_world) !! h1 = Some Live ->
        sources (run evs initial_world) !! h2 = Some Live -> h1 = h2)
  /\ length (live_sources (run evs initial_world)) <= 1.
Proof.
  intros Hseq.
  destruct (one_subscription_without_overlap evs initial_world
              subscription_invariant_initial Hseq) as [(Hone & _) Huniq].
  split; [exact Hone |]. split; [exact Huniq |].
  pose proof (live_sources_NoDup (run evs initial_world)) as Hnd.
  destruct (live_sources (run evs initial_world)) as [|a [|b l]] eqn:Hl;
    cbn; try lia.
  assert (Ha : a ∈ live_sources (run evs initial_world))
    by (rewrite Hl; apply elem_of_cons; left; reflexivity).
  assert (Hb : b ∈ live_sources (run evs initial_world))
    by (rewrite Hl; apply elem_of_cons; right;
        apply elem_of_cons; left; reflexivity).
  apply live_sources_elem in Ha. apply live_sources_elem in Hb.
  pose proof (Huniq a b Ha Hb) as ->.
  apply NoDup_cons in Hnd as [Hnot _].
  exfalso. apply Hnot. apply elem_of_cons. left. reflexivity.
Qed.

Lemma sequential_connects_keep_one_subscription_witness :
  non_overlapping
    [Call (SetState_sessionId "s1"); Call ConnectToStream;
     Settle 0 (SettleSessionState (Fulfilled (ok_response snapshot_s1)));
     Call ConnectToStream;
     Settle 0 (SettleSessionState (Fulfilled (ok_response snapshot_s1)))]
    initial_world
  /\ length
       (live_sources
          (run [Call (SetState_sessionId "s1"); Call ConnectToStream;
                Settle 0 (SettleSessionState
                            (Fulfilled (ok_response snapshot_s1)));
                Call ConnectToStream;
                Settle 0 (SettleSessionState
                            (Fulfilled (ok_response snapshot_s1)))]
             initial_world)) <= 1.
Proof.
  assert (Hseq :
    non_overlapping
      [Call (SetState_sessionId "s1"); Call ConnectToStream;
       Settle 0 (SettleSessionState (Fulfilled (ok_response snapshot_s1)));
       Call ConnectToStream;
       Settle 0 (SettleSessionState (Fulfilled (ok_response snapshot_s1)))]
      initial_world).
  { cbn [non_overlapping starts_connect].
    split; [discriminate |]. split; [reflexivity |].
    split; [discriminate |]. split; [reflexivity |].
    split; [discriminate | exact I]. }
  split; [exact Hseq |].
  apply (sequential_connects_keep_one_subscription _ Hseq).
Defined.
